(** * SublimeLinter [lint/util.py]: environment, executable lookup,
      process runner, output post-processing.

    A shallow embedding of the functions of [lint/util.py] and the
    properties its specification states about them.

    Python values are modelled as follows.
    - [str] is a list of Unicode code points ([N]); [bytes] is a
      [list Byte.byte].
    - a [dict] with string keys is a [gmap str _].
    - an exception is a value of [exn]; a computation that can raise
      returns [Res A].
    - the operating system, the editor and the [logging] module are
      collaborators: what they answer is a field of [Host], what they
      are told is an event appended to the [World]. *)

From Stdlib Require Import ZArith NArith List String Ascii Lia Bool.
From Stdlib Require Import DecimalString.
From stdpp Require Import base option list gmap.
From Equations Require Import Equations.
From Equations.Prop Require Import Logic.
Import ListNotations.

Local Open Scope N_scope.
Local Open Scope list_scope.

Set Default Proof Using "Type".

(** ** Text *)

Definition char := N.
Definition str := list N.

(** A Python string literal made of ASCII characters. *)
Definition lit (s : string) : str :=
  List.map N_of_ascii (list_ascii_of_string s).

Definition ESC : char := 27.
Definition LF : char := 10.

(** Truth value of a string: [bool(s)]. *)
Definition truthy (s : str) : bool :=
  match s with [] => false | _ => true end.

(** [sep.join(parts)]. *)
Fixpoint join (sep : str) (parts : list str) : str :=
  match parts with
  | [] => []
  | [p] => p
  | p :: rest => p ++ sep ++ join sep rest
  end.

(** [s.split(sep)] for a separator of one character, as [os.pathsep] is. *)
Fixpoint split (sep : char) (s : str) : list str :=
  match s with
  | [] => [[]]
  | c :: rest =>
      if N.eqb c sep then [] :: split sep rest
      else match split sep rest with
           | [] => [[c]]
           | w :: ws => (c :: w) :: ws
           end
  end.

(** [s.startswith(p)]. *)
Fixpoint startswith (p s : str) : bool :=
  match p, s with
  | [], _ => true
  | _ :: _, [] => false
  | a :: p', b :: s' => N.eqb a b && startswith p' s'
  end.

(** ** Output post-processor: [ANSI_COLOR_RE] *)

(** [[0-9;]]: the character class of the parameter bytes. *)
Definition is_sgr_param (c : char) : bool :=
  (N.leb 48 c && N.leb c 57) || N.eqb c 59.

(** [[0-9;]*m] at the head of [s]: the star is greedy and [m] is not in
    the class, so the parameters are skipped and the next character must
    be [m].  Returns what follows the match. *)
Fixpoint match_params (s : str) : option str :=
  match s with
  | [] => None
  | c :: rest =>
      if is_sgr_param c then match_params rest
      else if N.eqb c 109 then Some rest
      else None
  end.

(** [ANSI_COLOR_RE.match] at the head of [s]: [\033\[[0-9;]*m]. *)
Definition match_sgr (s : str) : option str :=
  match s with
  | e :: b :: rest =>
      if N.eqb e ESC && N.eqb b 91 then match_params rest else None
  | _ => None
  end.

Lemma match_params_shorter s t :
  match_params s = Some t -> (length t < length s)%nat.
Proof.
  revert t. induction s as [|c rest IH]; intros t; simpl; [discriminate|].
  destruct (is_sgr_param c).
  - intros H. apply IH in H. lia.
  - destruct (N.eqb c 109); [|discriminate].
    intros [= ->]. lia.
Qed.

Lemma match_sgr_shorter s t :
  match_sgr s = Some t -> (length t < length s)%nat.
Proof.
  destruct s as [|e [|b rest]]; simpl; try discriminate.
  destruct (N.eqb e ESC && N.eqb b 91); [|discriminate].
  intros H. apply match_params_shorter in H. lia.
Qed.

(** [ANSI_COLOR_RE.sub('', s)]: scan from the left; where the pattern
    matches, drop the match and go on after it; elsewhere keep the
    character and go on at the next one.  A match is never empty. *)
Equations? strip_ansi (s : str) : str by wf (length s) lt :=
  strip_ansi [] := [];
  strip_ansi (c :: rest) with inspect (match_sgr (c :: rest)) := {
    | exist _ (Some after) Hm := strip_ansi after;
    | exist _ None _ := c :: strip_ansi rest }.
Proof.
  apply (match_sgr_shorter (c :: rest)). exact Hm.
Qed.

Definition post_strip_sample : str := ESC :: lit "[31mred" ++ ESC :: lit "[0m".

(** [s.strip()]: whitespace is what [str.isspace] accepts. *)
Definition isspace (c : char) : bool :=
  (N.leb 9 c && N.leb c 13) || (N.leb 28 c && N.leb c 32)
  || N.eqb c 133 || N.eqb c 160 || N.eqb c 5760
  || (N.leb 8192 c && N.leb c 8202)
  || N.eqb c 8232 || N.eqb c 8233 || N.eqb c 8239 || N.eqb c 8287
  || N.eqb c 12288.

Fixpoint lstrip (s : str) : str :=
  match s with
  | c :: rest => if isspace c then lstrip rest else s
  | [] => []
  end.

Definition strip (s : str) : str := rev (lstrip (rev (lstrip s))).

(** ** Exceptions and results *)

Inductive exn :=
| KeyError (key : str)
| UnboundLocalError (name : str)
| TypeError (msg : str)
| ValueError (msg : str)
| UnicodeDecodeError
| UnicodeEncodeError
| OSError (msg : str).

(** [str(err)]. *)
Definition exn_str (e : exn) : str :=
  match e with
  | KeyError k => lit "'" ++ k ++ lit "'"
  | UnboundLocalError n =>
      lit "local variable '" ++ n ++ lit "' referenced before assignment"
  | TypeError m | ValueError m | OSError m => m
  | UnicodeDecodeError => lit "invalid utf-8"
  | UnicodeEncodeError => lit "surrogates not allowed"
  end.

(** Is the exception an instance of [UnicodeError]? *)
Definition is_UnicodeError (e : exn) : bool :=
  match e with
  | UnicodeDecodeError | UnicodeEncodeError => true
  | _ => false
  end.

Inductive Res (A : Type) :=
| Ok (a : A)
| Raise (e : exn).
Arguments Ok {A} a.
Arguments Raise {A} e.

#[global] Instance Res_ret : MRet Res := fun _ a => Ok a.
#[global] Instance Res_bind : MBind Res := fun _ _ f r =>
  match r with Ok a => f a | Raise e => Raise e end.
#[global] Instance Res_fmap : FMap Res := fun _ _ f r =>
  match r with Ok a => Ok (f a) | Raise e => Raise e end.

(** ** UTF-8 *)

Definition byte_val (b : Byte.byte) : N := Byte.to_N b.

Definition is_cont (b : N) : bool := N.leb 128 b && N.leb b 191.
Definition in_range (lo hi b : N) : bool := N.leb lo b && N.leb b hi.
Definition low6 (b : N) : N := N.land b 63.

(** [b.decode('utf8')], strict: shortest form only, no surrogates,
    nothing above U+10FFFF.  [None] stands for [UnicodeDecodeError]. *)
Fixpoint utf8_decode (b : list Byte.byte) : option str :=
  match b with
  | [] => Some []
  | x0 :: r0 =>
      let b0 := byte_val x0 in
      if N.ltb b0 128 then cons b0 <$> utf8_decode r0
      else if in_range 194 223 b0 then
        match r0 with
        | x1 :: r1 =>
            let b1 := byte_val x1 in
            if is_cont b1
            then cons (N.shiftl (N.land b0 31) 6 + low6 b1) <$> utf8_decode r1
            else None
        | _ => None
        end
      else if in_range 224 239 b0 then
        match r0 with
        | x1 :: x2 :: r2 =>
            let b1 := byte_val x1 in
            let b2 := byte_val x2 in
            if (if N.eqb b0 224 then in_range 160 191 b1
                else if N.eqb b0 237 then in_range 128 159 b1
                else is_cont b1) && is_cont b2
            then cons (N.shiftl (N.land b0 15) 12 + N.shiftl (low6 b1) 6
                       + low6 b2) <$> utf8_decode r2
            else None
        | _ => None
        end
      else if in_range 240 244 b0 then
        match r0 with
        | x1 :: x2 :: x3 :: r3 =>
            let b1 := byte_val x1 in
            let b2 := byte_val x2 in
            let b3 := byte_val x3 in
            if (if N.eqb b0 240 then in_range 144 191 b1
                else if N.eqb b0 244 then in_range 128 143 b1
                else is_cont b1) && is_cont b2 && is_cont b3
            then cons (N.shiftl (N.land b0 7) 18 + N.shiftl (low6 b1) 12
                       + N.shiftl (low6 b2) 6 + low6 b3) <$> utf8_decode r3
            else None
        | _ => None
        end
      else None
  end.

Definition to_byte (n : N) : Byte.byte :=
  match Byte.of_N n with Some b => b | None => Byte.x00 end.

(** UTF-8 bytes of one code point; [None] for a surrogate or a value
    that is no code point. *)
Definition utf8_encode_char (c : char) : option (list Byte.byte) :=
  if N.ltb c 128 then Some [to_byte c]
  else if N.ltb c 2048 then
    Some [to_byte (192 + N.shiftr c 6); to_byte (128 + low6 c)]
  else if in_range 55296 57343 c then None
  else if N.ltb c 65536 then
    Some [to_byte (224 + N.shiftr c 12); to_byte (128 + low6 (N.shiftr c 6));
          to_byte (128 + low6 c)]
  else if N.ltb c 1114112 then
    Some [to_byte (240 + N.shiftr c 18); to_byte (128 + low6 (N.shiftr c 12));
          to_byte (128 + low6 (N.shiftr c 6)); to_byte (128 + low6 c)]
  else None.

(** [s.encode('utf8')]. *)
Fixpoint utf8_encode (s : str) : Res (list Byte.byte) :=
  match s with
  | [] => Ok []
  | c :: rest =>
      match utf8_encode_char c with
      | Some bs => app bs <$> utf8_encode rest
      | None => Raise UnicodeEncodeError
      end
  end.

(** ** Collaborators *)

(** A value of the settings file. *)
#[warnings="-register-all"]
Inductive setting :=
| SNull
| SBool (b : bool)
| SNum (z : Z)
| SStr (s : str)
| SList (l : list setting)
| SDict (d : list (str * setting)).

(** [sublime.View], as far as this module looks at it. *)
Record View := {
  file_name : option str;
  buffer_id : Z }.

(** The owner of a run: a linter. *)
Record Linter := {
  view : option View;
  on_stderr_callable : bool }.

(** A [subprocess.Popen] object. *)
Record Proc := {
  handle : N;
  stdin_pipe : bool;
  stdout_pipe : bool;
  stderr_pipe : bool }.

#[global] Instance Proc_eq_dec : EqDecision Proc.
Proof. solve_decision. Defined.

(** [subprocess.STARTUPINFO]. *)
Record StartupInfo := {
  dwFlags : Z;
  wShowWindow : Z }.

(** The environment handed to a run: a [dict], or a [ChainMap] with its
    [maps]. *)
Inductive env_arg :=
| EnvDict (d : gmap str str)
| EnvChain (maps : list (gmap str str)).

(** The arguments of the [subprocess.Popen] call. *)
Record PopenArgs := {
  pa_cmd : list str;
  pa_env : env_arg;
  pa_cwd : option str;
  pa_stdin : bool;
  pa_stdout : bool;
  pa_stderr : bool;
  pa_startupinfo : option StartupInfo;
  pa_creationflags : Z }.

(** What the operating system, the editor, the settings and the
    standard library answer. *)
Record Host := {
  os_name_nt : bool;                       (* os.name == 'nt' *)
  platform : str;                          (* sublime.platform() *)
  pathsep : char;                          (* os.pathsep *)
  expanduser : str -> str;                 (* os.path.expanduser *)
  abspath : str -> str;                    (* os.path.abspath *)
  path_join : str -> str -> str;           (* os.path.join *)
  splitext_ext : str -> str;               (* os.path.splitext(p)[1] *)
  isfile : str -> bool;                    (* os.path.isfile *)
  access_x : str -> bool;                  (* os.access(p, os.X_OK) *)
  relpath : str -> str -> Res str;         (* os.path.relpath *)
  realpath_curdir : str;                   (* os.path.realpath(os.path.curdir) *)
  (* b.decode(locale.getpreferredencoding(), errors='replace') *)
  preferred_decode_replace : list Byte.byte -> str;
  pformat : gmap str str -> str;           (* pprint.pformat(d, indent=2) *)
  settings_paths : gmap str setting;       (* persist.settings.get('paths', {}) *)
  info_enabled : bool;                     (* logger.isEnabledFor(logging.INFO) *)
  spawn : PopenArgs -> Res N;              (* does the launch succeed? *)
  (* what the child writes to stdout and stderr *)
  child_io : Proc -> option (list Byte.byte) ->
             Res (list Byte.byte * list Byte.byte) }.

Inductive level := INFO | ERROR.

(** What the module does to its collaborators, in order. *)
Inductive Event :=
| EvLog (lvl : level) (msg : str)
| EvPopen (args : PopenArgs)
| EvRegister (bid : option Z) (p : Proc)
| EvCommunicate (p : Proc) (input : option (list Byte.byte))
| EvDeregister (bid : option Z) (p : Proc)
| EvNotifyFailure
| EvOnStderr (text : str).

(** The state the module reads and writes. *)
Record World := {
  os_environ : gmap str str;               (* os.environ *)
  path_logged : option str;                (* lru_cache(maxsize=1) of debug_print_env *)
  active_procs : gmap (option Z) (list Proc);
  trace : list Event }.

(** Modelled from the spec: [persist.active_procs] is not in this
    module; the registry maps an owner key to the handles of its running
    children, and registering creates the owner's entry if absent (a
    [defaultdict(list)]). *)
Definition procs_of (reg : gmap (option Z) (list Proc)) (bid : option Z)
  : list Proc :=
  default [] (reg !! bid).

(** ** State and exceptions *)

Definition M (A : Type) : Type := World -> Res A * World.

#[global] Instance M_ret : MRet M := fun _ a w => (Ok a, w).
#[global] Instance M_bind : MBind M := fun _ _ f m w =>
  match m w with
  | (Ok a, w') => f a w'
  | (Raise e, w') => (Raise e, w')
  end.

#[global] Instance M_fmap : FMap M := fun _ _ f m w =>
  match m w with
  | (Ok a, w') => (Ok (f a), w')
  | (Raise e, w') => (Raise e, w')
  end.

Definition raise {A} (e : exn) : M A := fun w => (Raise e, w).
Definition lift {A} (r : Res A) : M A := fun w => (r, w).
Definition get_world : M World := fun w => (Ok w, w).

Definition add_events (evs : list Event) (w : World) : World :=
  {| os_environ := os_environ w; path_logged := path_logged w;
     active_procs := active_procs w; trace := trace w ++ evs |}.

Definition with_path_logged (p : str) (w : World) : World :=
  {| os_environ := os_environ w; path_logged := Some p;
     active_procs := active_procs w; trace := trace w |}.

Definition with_active_procs (reg : gmap (option Z) (list Proc)) (w : World)
  : World :=
  {| os_environ := os_environ w; path_logged := path_logged w;
     active_procs := reg; trace := trace w |}.

Definition emit (ev : Event) : M unit := fun w => (Ok tt, add_events [ev] w).

Definition set_path_logged (p : str) : M unit := fun w =>
  (Ok tt, with_path_logged p w).

Definition set_active_procs (reg : gmap (option Z) (list Proc)) : M unit :=
  fun w => (Ok tt, with_active_procs reg w).

(** [try: body finally: cleanup]. *)
Definition finally {A} (body : M A) (cleanup : M unit) : M A := fun w =>
  match body w with
  | (r, w1) =>
      match cleanup w1 with
      | (Ok _, w2) => (r, w2)
      | (Raise e, w2) => (Raise e, w2)
      end
  end.

(** [try: body except Exception as err: handler else: orelse]. *)
Definition try_except {A B} (body : M A) (handler : exn -> M B)
    (orelse : A -> M B) : M B := fun w =>
  match body w with
  | (Raise err, w') => handler err w'
  | (Ok a, w') => orelse a w'
  end.

Definition when (b : bool) (m : M unit) : M unit :=
  if b then m else mret tt.

(** ** Environment resolver *)

Section Util.

Context (h : Host).

Definition PATH : str := lit "PATH".

(** [textwrap.indent] splits with [str.splitlines(True)]: a line ends
    after a line boundary, which it keeps. *)
Definition is_linebreak (c : char) : bool :=
  in_range 10 13 c || in_range 28 30 c || N.eqb c 133
  || N.eqb c 8232 || N.eqb c 8233.

Fixpoint splitlines_keep (cur : str) (s : str) : list str :=
  match s with
  | [] => match cur with [] => [] | _ => [rev cur] end
  | c :: rest =>
      if N.eqb c 13 then
        match rest with
        | d :: rest' =>
            if N.eqb d 10 then rev (d :: c :: cur) :: splitlines_keep [] rest'
            else rev (c :: cur) :: splitlines_keep [] rest
        | [] => [rev (c :: cur)]
        end
      else if is_linebreak c then rev (c :: cur) :: splitlines_keep [] rest
      else splitlines_keep (c :: cur) rest
  end.

(** [textwrap.indent(text, prefix, predicate)]. *)
Definition indent (text prefix : str) (predicate : str -> bool) : str :=
  concat (List.map (fun line => if predicate line then prefix ++ line else line)
                   (splitlines_keep [] text)).

(** The default predicate of [textwrap.indent]: [line.strip()]. *)
Definition nonblank (line : str) : bool := truthy (strip line).

(** [s.replace(a, b)] for single characters. *)
Definition replace_char (a : char) (b : str) (s : str) : str :=
  concat (List.map (fun c => if N.eqb c a then b else [c]) s).

(** [logger.info(msg)] and [logger.error(msg)]: the call on the logger. *)
Definition log_msg (lvl : level) (msg : str) : M unit := emit (EvLog lvl msg).

(** [debug_print_env] under [lru_cache(maxsize=1)]: the body runs when
    the argument differs from the cached one. *)
Definition debug_print_env (path : str) : M unit :=
  w ← get_world;
  if decide (path_logged w = Some path) then mret tt
  else
    log_msg INFO (lit "PATH:" ++ [LF] ++
                  indent (replace_char (pathsep h) [LF] path)
                         (lit "    ") nonblank) ;;
    set_path_logged path.

(** [convert_type(value, [])]: [type_value] is a list, [sep] and
    [default] are [None].  A list is returned as it is, a string or a
    number is wrapped in a list, anything else gives [default]. *)
Definition convert_type_list (value : setting) : option (list setting) :=
  match value with
  | SList l => Some l
  | SStr _ => Some [value]
  | SNum _ | SBool _ => Some [value]
  | SNull | SDict _ => None
  end.

(** [os.path.abspath(os.path.expanduser(path))] for an entry of the
    setting; it raises on an entry that is no string. *)
Definition normalize_entry (path : setting) : Res str :=
  match path with
  | SStr p => Ok (abspath h (expanduser h p))
  | _ => Raise (TypeError (lit "expected str"))
  end.

Fixpoint normalize_entries (l : list setting) : Res (list str) :=
  match l with
  | [] => Ok []
  | p :: rest =>
      p' ← normalize_entry p;
      rest' ← normalize_entries rest;
      Ok (p' :: rest')
  end.

(** [env['PATH']]. *)
Definition env_PATH (env : gmap str str) : Res str :=
  match env !! PATH with
  | Some p => Ok p
  | None => Raise (KeyError PATH)
  end.

Definition create_environment : M (gmap str str) :=
  w ← get_world;
  let env := os_environ w in
  paths ← lift (match settings_paths h !! platform h with
                | Some v =>
                    match convert_type_list v with
                    | Some l => normalize_entries l
                    | None => Raise (TypeError (lit "'NoneType' object is not iterable"))
                    end
                | None => Ok []
                end);
  env ← lift (match paths with
              | [] => Ok env
              | _ =>
                  p ← env_PATH env;
                  Ok (<[PATH := join [pathsep h] paths ++ [pathsep h] ++ p]> env)
              end);
  (if info_enabled h then
     p ← lift (env_PATH env);
     when (truthy p) (debug_print_env p)
   else mret tt) ;;
  mret env.

(** ** Executable locator *)

Definition can_exec (path : str) : bool := isfile h path && access_x h path.

Definition windows : str := lit "windows".

(** The candidate for one PATH entry. *)
Definition candidate (base executable : str) : str :=
  path_join h (expanduser h base) executable.

Definition extensions : list str := [lit ".exe"; lit ".cmd"; lit ".bat"].

(** What one turn of the loop of [find_executables] yields. *)
Definition probe (executable base : str) : list str :=
  let path := candidate base executable in
  if bool_decide (platform h = windows) && negb (truthy (splitext_ext h path))
  then List.filter can_exec (List.map (fun extension => path ++ extension) extensions)
  else if can_exec path then [path] else [].

(** The generator, as the list of what it yields. *)
Definition find_executables (executable : str) : M (list str) :=
  env ← create_environment;
  mret (flat_map (probe executable)
                 (split (pathsep h) (default [] (env !! PATH)))).

Definition which (cmd : str) : M (option str) :=
  paths ← find_executables cmd;
  mret (head paths).

(** ** Diagnostic logger *)

(** [str(n)] for an integer. *)
Definition str_of_Z (z : Z) : str := lit (NilZero.string_of_int (Z.to_int z)).

(** [RUNNING_TEMPLATE.format(...)]. *)
Definition RUNNING_TEMPLATE (headline cwd prompt pipe cmd : str) : str :=
  headline ++ [LF] ++ [LF] ++
  lit "  " ++ cwd ++ lit "  (working dir)" ++ [LF] ++
  lit "  " ++ prompt ++ pipe ++ lit " " ++ cmd ++ [LF].

(** [PIPE_TEMPLATE.format(name)]. *)
Definition PIPE_TEMPLATE (name : str) : str :=
  if os_name_nt h then lit " type " ++ name ++ lit " |"
  else lit " cat " ++ name ++ lit " |".

(** [ENV_TEMPLATE.format(env=...)]. *)
Definition ENV_TEMPLATE (env : str) : str :=
  [LF] ++ lit "  Modified environment:" ++ [LF] ++ [LF] ++
  lit "  " ++ env ++ [LF] ++ [LF] ++
  lit "  Type: `import os; os.environ` in the Sublime console to get the full environment." ++ [LF].

(** Truth value of a string or [None]. *)
Definition truthy_opt (s : option str) : bool :=
  match s with Some s => truthy s | None => false end.

(** Truth value of a dict or [None]. *)
Definition truthy_env (env : option (gmap str str)) : bool :=
  match env with
  | Some d => negb (bool_decide (d = ∅))
  | None => false
  end.

(** The local [rel_filename] after the [if]/[elif]: [None] when neither
    branch bound it. *)
Definition rel_filename (cwd : option str) (view : option View)
  : Res (option str) :=
  let filename := match view with Some v => file_name v | None => None end in
  if truthy_opt filename && truthy_opt cwd then
    r ← relpath h (default [] filename) (default [] cwd);
    Ok (Some r)
  else if negb (truthy_opt filename) then
    Ok (Some (match view with
              | Some v => lit "<buffer " ++ str_of_Z (buffer_id v) ++ lit ">"
              | None => lit "<?>"
              end))
  else Ok None.

Definition make_nice_log_message (headline : str) (cmd : list str)
    (is_stdin : bool) (cwd : option str) (view : option View)
    (env : option (gmap str str)) : Res str :=
  rel ← rel_filename cwd view;
  let real_cwd := if truthy_opt cwd then default [] cwd
                  else realpath_curdir h in
  pipe ← (if is_stdin then
            match rel with
            | Some r => Ok (PIPE_TEMPLATE r)
            | None => Raise (UnboundLocalError (lit "rel_filename"))
            end
          else Ok []);
  let exec_msg :=
    RUNNING_TEMPLATE headline real_cwd
      (if os_name_nt h then lit ">" else lit "$") pipe (join (lit " ") cmd) in
  let env_msg :=
    if truthy_env env then
      ENV_TEMPLATE (indent (pformat h (default ∅ env)) (lit "  ")
                           (fun line => negb (startswith (lit "{") line)))
    else [] in
  Ok (exec_msg ++ env_msg).

(** ** Output post-processor *)

(** [decode(bytes)]; the argument is [None] where the stream had no
    pipe. *)
Definition decode (b : option (list Byte.byte)) : Res str :=
  match b with
  | None | Some [] => Ok []
  | Some bs =>
      match (match utf8_decode bs with
             | Some s => Ok s
             | None => Raise UnicodeDecodeError
             end) with
      | Ok s => Ok s
      | Raise e =>
          if is_UnicodeError e then Ok (preferred_decode_replace h bs)
          else Raise e
      end
  end.

Definition _post_process_fh (fh : option (list Byte.byte)) : Res str :=
  as_string ← decode fh;
  Ok (strip_ansi as_string).

(** ** Live process registry *)

(** [l.remove(p)]: drop the first occurrence; [None] stands for the
    [ValueError] of a missing element. *)
Fixpoint list_remove (p : Proc) (l : list Proc) : option (list Proc) :=
  match l with
  | [] => None
  | x :: rest =>
      if decide (x = p) then Some rest else cons x <$> list_remove p rest
  end.

(** [persist.active_procs[bid].append(proc)]. *)
Definition reg_append (bid : option Z) (proc : Proc)
    (reg : gmap (option Z) (list Proc)) : gmap (option Z) (list Proc) :=
  <[bid := procs_of reg bid ++ [proc]]> reg.

(** [persist.active_procs[bid].remove(proc)]: the registry afterwards,
    and whether [remove] found the handle. *)
Definition reg_remove (bid : option Z) (proc : Proc)
    (reg : gmap (option Z) (list Proc))
  : gmap (option Z) (list Proc) * bool :=
  match list_remove proc (procs_of reg bid) with
  | Some l => (<[bid := l]> reg, true)
  | None => (<[bid := procs_of reg bid]> reg, false)
  end.

(** The two blocks under [persist.active_procs_lock]. *)
Definition register (bid : option Z) (proc : Proc) : M unit :=
  emit (EvRegister bid proc) ;;
  w ← get_world;
  set_active_procs (reg_append bid proc (active_procs w)).

Definition deregister (bid : option Z) (proc : Proc) : M unit :=
  emit (EvDeregister bid proc) ;;
  w ← get_world;
  let '(reg, found) := reg_remove bid proc (active_procs w) in
  set_active_procs reg ;;
  if found then mret tt
  else raise (ValueError (lit "list.remove(x): x not in list")).

(** ** Process runner *)

Definition STREAM_STDOUT : Z := 1.
Definition STREAM_STDERR : Z := 2.
Definition STREAM_BOTH : Z := STREAM_STDOUT + STREAM_STDERR.

Definition STARTF_USESHOWWINDOW : Z := 1.
Definition STARTF_USESTDHANDLES : Z := 256.
Definition SW_HIDE : Z := 0.
Definition CREATE_NEW_PROCESS_GROUP : Z := 512.

Definition create_startupinfo : option StartupInfo :=
  if os_name_nt h then
    Some {| dwFlags := Z.lor 0 (Z.lor STARTF_USESTDHANDLES STARTF_USESHOWWINDOW);
            wShowWindow := SW_HIDE |}
  else None.

Definition get_creationflags : Z :=
  if os_name_nt h then CREATE_NEW_PROCESS_GROUP else 0%Z.

(** [subprocess.Popen(...)]. *)
Definition Popen (args : PopenArgs) : M Proc :=
  emit (EvPopen args) ;;
  pid ← lift (spawn h args);
  mret {| handle := pid; stdin_pipe := pa_stdin args;
          stdout_pipe := pa_stdout args; stderr_pipe := pa_stderr args |}.

(** [proc.communicate(input)]: a stream without a pipe gives [None]. *)
Definition proc_communicate (proc : Proc) (input : option (list Byte.byte))
  : M (option (list Byte.byte) * option (list Byte.byte)) :=
  emit (EvCommunicate proc input) ;;
  '(o, e) ← lift (child_io h proc input);
  mret (if stdout_pipe proc then Some o else None,
        if stderr_pipe proc then Some e else None).

(** The dict of the chain of all maps of [env] but the last (earlier
    maps win), or [None] where [env] has no [maps]. *)
Definition augmented_env (env : env_arg) : option (gmap str str) :=
  match env with
  | EnvChain maps => Some (foldr (fun m acc => m ∪ acc) ∅ (removelast maps))
  | EnvDict _ => None
  end.

(** [_linter and callable(_linter.on_stderr)]. *)
Definition on_stderr_declared (_linter : option Linter) : bool :=
  match _linter with Some l => on_stderr_callable l | None => false end.

(** The result-selection part of [communicate]; [None] is the result of
    falling off its end. *)
Definition select_output (output_stream : Z) (_linter : option Linter)
    (out : option (list Byte.byte) * option (list Byte.byte))
  : M (option str) :=
  if Z.eqb output_stream STREAM_STDOUT then
    Some <$> lift (_post_process_fh (fst out))
  else if Z.eqb output_stream STREAM_STDERR then
    Some <$> lift (_post_process_fh (snd out))
  else if Z.eqb output_stream STREAM_BOTH then
    if on_stderr_declared _linter then
      stdout ← lift (_post_process_fh (fst out));
      stderr ← lift (_post_process_fh (snd out));
      when (truthy (strip stderr)) (emit (EvOnStderr stderr)) ;;
      mret (Some stdout)
    else
      stdout ← lift (_post_process_fh (fst out));
      stderr ← lift (_post_process_fh (snd out));
      mret (Some (join [] [stdout; stderr]))
  else mret None.

(** [code.encode('utf8')] where there is code. *)
Definition encode_code (code : option str) : M (option (list Byte.byte)) :=
  match code with
  | Some c => Some <$> lift (utf8_encode c)
  | None => mret None
  end.

(** The environment of the run: the one given, or that of
    [create_environment]. *)
Definition resolve_env (env : option env_arg) : M env_arg :=
  match env with
  | Some e => mret e
  | None => EnvDict <$> create_environment
  end.

(** The arguments [communicate] gives to [subprocess.Popen]. *)
Definition popen_args (cmd : list str) (uses_stdin : bool) (output_stream : Z)
    (env : env_arg) (cwd : option str) : PopenArgs :=
  {| pa_cmd := cmd; pa_env := env; pa_cwd := cwd;
     pa_stdin := uses_stdin;
     pa_stdout := negb (Z.eqb (Z.land output_stream STREAM_STDOUT) 0);
     pa_stderr := negb (Z.eqb (Z.land output_stream STREAM_STDERR) 0);
     pa_startupinfo := create_startupinfo;
     pa_creationflags := get_creationflags |}.

Definition communicate (cmd : list str) (code : option str)
    (output_stream : Z) (env : option env_arg) (cwd : option str)
    (_linter : option Linter) : M (option str) :=
  code ← encode_code code;
  env ← resolve_env env;
  let view := _linter ≫= view in
  let bid := buffer_id <$> view in
  let uses_stdin := bool_decide (code ≠ None) in
  try_except
    (Popen (popen_args cmd uses_stdin output_stream env cwd))
    (fun err =>
       msg ← lift (make_nice_log_message
                     (lit "  Execution failed" ++ [LF] ++ [LF] ++ lit "  "
                      ++ exn_str err)
                     cmd uses_stdin cwd view (augmented_env env));
       log_msg ERROR msg ;;
       when (bool_decide (_linter ≠ None)) (emit EvNotifyFailure) ;;
       mret (Some []))
    (fun proc =>
       (if info_enabled h then
          msg ← lift (make_nice_log_message (lit "Running ...") cmd
                        uses_stdin cwd view None);
          log_msg INFO msg
        else mret tt) ;;
       register bid proc ;;
       out ← finally (proc_communicate proc code) (deregister bid proc);
       select_output output_stream _linter out).

End Util.

(** ** Sample hosts

    Small hosts on which the model is evaluated: a POSIX-like one and a
    Windows-like one, with a file system given by the list of its
    executable regular files. *)

Module Sample.

Definition slash (nt : bool) : char := if nt then 92 else 47.

Definition is_abs (nt : bool) (p : str) : bool :=
  match p with
  | c :: rest =>
      N.eqb c (slash nt)
      || (nt && match rest with d :: _ => N.eqb d 58 | [] => false end)
  | [] => false
  end.

Definition s_join (nt : bool) (a b : str) : str :=
  if is_abs nt b then b
  else match a with
       | [] => b
       | _ => if N.eqb (List.last a 0) (slash nt) then a ++ b
              else a ++ [slash nt] ++ b
       end.

(** The part of [p] after its last separator. *)
Definition basename (nt : bool) (p : str) : str :=
  List.last (split (slash nt) p) [].

Fixpoint drop_dots (s : str) : str :=
  match s with
  | c :: rest => if N.eqb c 46 then drop_dots rest else s
  | [] => []
  end.

Definition s_ext (nt : bool) (p : str) : str :=
  match split 46 (drop_dots (basename nt p)) with
  | (_ :: _ :: _) as parts => 46 :: List.last parts []
  | _ => []
  end.

Definition s_expanduser (nt : bool) (p : str) : str :=
  match p with
  | 126 :: rest =>
      (if nt then lit "C:\Users\u" else lit "/home/u") ++ rest
  | _ => p
  end.

Definition s_abspath (nt : bool) (p : str) : str :=
  if nt then
    match p with
    | 47 :: rest | 92 :: rest => lit "C:\" ++ rest
    | _ => if is_abs nt p then p else lit "C:\work\" ++ p
    end
  else if is_abs nt p then p else lit "/work/" ++ p.

Definition in_files (files : list str) (p : str) : bool :=
  bool_decide (p ∈ files).

Definition host (nt : bool) (files : list str) (paths : gmap str setting)
    (info : bool) (launch : Res N)
    (io : Res (list Byte.byte * list Byte.byte)) : Host :=
  {| os_name_nt := nt;
     platform := if nt then lit "windows" else lit "linux";
     pathsep := if nt then 59 else 58;
     expanduser := s_expanduser nt;
     abspath := s_abspath nt;
     path_join := s_join nt;
     splitext_ext := s_ext nt;
     isfile := in_files files;
     access_x := in_files files;
     relpath := fun p start => Ok p;
     realpath_curdir := if nt then lit "C:\work" else lit "/work";
     preferred_decode_replace := List.map byte_val;
     pformat := fun _ => lit "{...}";
     settings_paths := paths;
     info_enabled := info;
     spawn := fun _ => launch;
     child_io := fun _ _ => io |}.

Definition world (environ : gmap str str) : World :=
  {| os_environ := environ; path_logged := None; active_procs := ∅;
     trace := [] |}.

End Sample.


(** ** Predicates of the statements *)

(** No escape character in the text. *)
Definition no_esc (s : str) : bool := forallb (fun c => negb (N.eqb c ESC)) s.

(** Every escape character of the text opens a complete SGR sequence. *)
Fixpoint every_esc_opens_sgr (s : str) : bool :=
  match s with
  | [] => true
  | c :: rest =>
      (if N.eqb c ESC then bool_decide (match_sgr s ≠ None) else true)
      && every_esc_opens_sgr rest
  end.

(** The text [decode] gives; [decode_ok] below shows that [decode]
    always returns it. *)
Definition decoded_text (h : Host) (b : option (list Byte.byte)) : str :=
  match b with
  | None | Some [] => []
  | Some bs =>
      match utf8_decode bs with
      | Some s => s
      | None => preferred_decode_replace h bs
      end
  end.

(** The decoded and ANSI-stripped text of a stream. *)
Definition post_processed (h : Host) (b : option (list Byte.byte)) : str :=
  strip_ansi (decoded_text h b).

(** Events of a trace, by kind. *)
Definition error_logs (t : list Event) : list str :=
  omap (fun ev => match ev with EvLog ERROR m => Some m | _ => None end) t.

Definition failure_notifications (t : list Event) : nat :=
  length (List.filter (fun ev => match ev with EvNotifyFailure => true
                                          | _ => false end) t).

Definition on_stderr_calls (t : list Event) : list str :=
  omap (fun ev => match ev with EvOnStderr s => Some s | _ => None end) t.

(** A view with a file behind it, and its linter. *)
Definition file_view (name : str) (bid : Z) : View :=
  {| file_name := Some name; buffer_id := bid |}.

Definition linter_of (v : View) : Linter :=
  {| view := Some v; on_stderr_callable := true |}.

(** The [Popen] object of a launch that gave the handle [pid]. *)
Definition proc_of (args : PopenArgs) (pid : N) : Proc :=
  {| handle := pid; stdin_pipe := pa_stdin args;
     stdout_pipe := pa_stdout args; stderr_pipe := pa_stderr args |}.

(** What [proc.communicate] returns for the bytes the child wrote. *)
Definition streams_of (proc : Proc) (o e : list Byte.byte)
  : option (list Byte.byte) * option (list Byte.byte) :=
  (if stdout_pipe proc then Some o else None,
   if stderr_pipe proc then Some e else None).

(** The registry after the two blocks under the lock of one run. *)
Definition registry_after_run (bid : option Z) (proc : Proc)
    (reg : gmap (option Z) (list Proc)) : gmap (option Z) (list Proc) :=
  (reg_remove bid proc (reg_append bid proc reg)).1.

(** The events of a launched run up to the end of its [finally]. *)
Definition run_events (args : PopenArgs) (info : list Event)
    (bid : option Z) (proc : Proc) (input : option (list Byte.byte))
  : list Event :=
  [EvPopen args] ++ info ++
  [EvRegister bid proc; EvCommunicate proc input; EvDeregister bid proc].

(** The log record of a launched run: none below INFO, else the
    formatted invocation. *)
Definition info_log (h : Host) (cmd : list str) (uses_stdin : bool)
    (cwd : option str) (view : option View) (evs : list Event) : Prop :=
  if info_enabled h then
    exists msg,
      make_nice_log_message h (lit "Running ...") cmd uses_stdin cwd view None
      = Ok msg /\ evs = [EvLog INFO msg]
  else evs = [].

(** Operations on the registry, one after the other. *)
Inductive reg_op :=
| OpRegister (bid : option Z) (p : Proc)
| OpDeregister (bid : option Z) (p : Proc).

(** [None] where a deregistration does not find its handle. *)
Definition apply_op (op : reg_op) (reg : gmap (option Z) (list Proc))
  : option (gmap (option Z) (list Proc)) :=
  match op with
  | OpRegister bid p => Some (reg_append bid p reg)
  | OpDeregister bid p =>
      let '(reg', found) := reg_remove bid p reg in
      if found then Some reg' else None
  end.

Fixpoint apply_ops (ops : list reg_op) (reg : gmap (option Z) (list Proc))
  : option (gmap (option Z) (list Proc)) :=
  match ops with
  | [] => Some reg
  | op :: rest =>
      match apply_op op reg with
      | Some reg' => apply_ops rest reg'
      | None => None
      end
  end.

Definition count_proc (p : Proc) (l : list Proc) : nat :=
  length (List.filter (fun x => bool_decide (x = p)) l).

Definition registered (bid : option Z) (p : Proc) (ops : list reg_op) : nat :=
  length (List.filter (fun op => match op with
                                 | OpRegister b q => bool_decide (b = bid /\ q = p)
                                 | OpDeregister _ _ => false
                                 end) ops).

Definition deregistered (bid : option Z) (p : Proc) (ops : list reg_op) : nat :=
  length (List.filter (fun op => match op with
                                 | OpDeregister b q => bool_decide (b = bid /\ q = p)
                                 | OpRegister _ _ => false
                                 end) ops).

(** Paired operations: every deregistration of a handle under an owner
    comes after a registration of it that no earlier deregistration has
    used.  [done] is what came before [ops]. *)
Fixpoint paired (done ops : list reg_op) : bool :=
  match ops with
  | [] => true
  | OpRegister bid p :: rest => paired (done ++ [OpRegister bid p]) rest
  | OpDeregister bid p :: rest =>
      Nat.ltb (deregistered bid p done) (registered bid p done)
      && paired (done ++ [OpDeregister bid p]) rest
  end.

(** What the registry holds is what was registered and not yet
    deregistered. *)
Definition balanced (done : list reg_op) (reg : gmap (option Z) (list Proc))
  : Prop :=
  forall bid p,
    (count_proc p (procs_of reg bid) + deregistered bid p done)%nat
    = registered bid p done.

(** ** Further functions of the module *)

(** A Python computation outside the process runner: a value, or an
    exception named by its class. *)
Inductive Py (A : Type) :=
| Val (a : A)
| Exc (cls : str).
Arguments Val {A} a.
Arguments Exc {A} cls.

(** A number: [bool] is a subclass of [int]; a [float] is written by its
    [repr]. *)
Inductive number :=
| NBool (b : bool)
| NInt (z : Z)
| NFloat (repr : str).

(** The values [convert_type] tells apart. *)
#[warnings="-register-all"]
Inductive pyval :=
| VNone
| VNum (n : number)
| VStr (s : str)
| VList (l : list pyval)
| VTuple (l : list pyval)
| VDict (d : list (pyval * pyval)).

(** [str(n)]. *)
Definition str_of_number (n : number) : str :=
  match n with
  | NBool true => lit "True"
  | NBool false => lit "False"
  | NInt z => str_of_Z z
  | NFloat r => r
  end.

(** [isinstance(value, type(type_value))]. *)
Definition instance_of_type_of (value type_value : pyval) : bool :=
  match type_value, value with
  | VNone, VNone => true
  | VNum (NBool _), VNum (NBool _) => true
  | VNum (NInt _), VNum (NBool _ | NInt _) => true
  | VNum (NFloat _), VNum (NFloat _) => true
  | VStr _, VStr _ => true
  | VList _, VList _ => true
  | VTuple _, VTuple _ => true
  | VDict _, VDict _ => true
  | _, _ => false
  end.

(** The strings of a list of values, if all are strings. *)
Fixpoint strs_of (l : list pyval) : option (list str) :=
  match l with
  | [] => Some []
  | VStr s :: rest => cons s <$> strs_of rest
  | _ :: _ => None
  end.

Section ConvertType.

(** [re.split(pattern, s)] and [float(s)] of the standard library;
    [None] where they raise. *)
Context (re_split : str -> str -> option (list str)).
Context (py_float : str -> option str).

Definition convert_type (value type_value : pyval) (sep : option str)
    (default : pyval) : Py pyval :=
  if match type_value with VNone => true | _ => false end
     || instance_of_type_of value type_value
  then Val value
  else
    match value with
    | VStr s =>
        match type_value with
        | VTuple _ | VList _ =>
            match sep with
            | None => Val (VList [value])
            | Some sp =>
                if truthy s then
                  match re_split ([92; 115; 42] ++ sp ++ [92; 115; 42]) s with
                  | Some parts => Val (VList (List.map VStr parts))
                  | None => Exc (lit "error")
                  end
                else Val (VList [])
            end
        | VNum _ =>
            match py_float s with
            | Some r => Val (VNum (NFloat r))
            | None => Exc (lit "ValueError")
            end
        | _ => Val default
        end
    | VNum n =>
        match type_value with
        | VStr _ => Val (VStr (str_of_number n))
        | VTuple _ | VList _ => Val (VList [value])
        | _ => Val default
        end
    | VTuple l | VList l =>
        match type_value with
        | VStr _ =>
            match sep with
            | None => Exc (lit "AttributeError")
            | Some sp =>
                match strs_of l with
                | Some parts => Val (VStr (join sp parts))
                | None => Exc (lit "TypeError")
                end
            end
        | _ => Val (VList l)
        end
    | _ => Val default
    end.

End ConvertType.

(** A value of the settings file as a Python value. *)
Fixpoint pyval_of_setting (v : setting) : pyval :=
  match v with
  | SNull => VNone
  | SBool b => VNum (NBool b)
  | SNum z => VNum (NInt z)
  | SStr s => VStr s
  | SList l => VList (List.map pyval_of_setting l)
  | SDict d =>
      VDict (List.map (fun kv => (VStr (fst kv), pyval_of_setting (snd kv))) d)
  end.

Section Resources.

(** [sublime.load_resource] and [sublime.decode_value]. *)
Context (load_resource : str -> Py str).
Context (decode_value : str -> Py setting).

Definition load_json (segments : list str) (from_sl_dir : bool) : Py setting :=
  let base_path := if from_sl_dir then lit "Packages/SublimeLinter/" else [] in
  let full_path := base_path ++ join (lit "/") segments in
  match load_resource full_path with
  | Val text => decode_value text
  | Exc cls => Exc cls
  end.

(** [d.get(key)] on the object of a JSON text: the last binding of the
    key, or [None]. *)
Fixpoint dict_get (d : list (str * setting)) (key : str) : option setting :=
  match d with
  | [] => None
  | (k, v) :: rest =>
      match dict_get rest key with
      | Some v' => Some v'
      | None => if decide (k = key) then Some v else None
      end
  end.

(** [metadata.get("version")]: only an object has [get]. *)
Definition metadata_version (metadata : setting) : Py setting :=
  match metadata with
  | SDict d => Val (default SNull (dict_get d (lit "version")))
  | _ => Exc (lit "AttributeError")
  end.

Definition get_sl_version : setting :=
  match (match load_json [lit "package-metadata.json"] true with
         | Val metadata => metadata_version metadata
         | Exc cls => Exc cls
         end) with
  | Val version => version
  | Exc _ => SStr (lit "unknown")
  end.

End Resources.

(** ** Predicates of the further statements *)

(** An SGR sequence starts somewhere in the text. *)
Fixpoint has_sgr (s : str) : bool :=
  match s with
  | [] => false
  | _ :: rest => bool_decide (match_sgr s ≠ None) || has_sgr rest
  end.

(** Coloured output: plain text and SGR sequences in turn. *)
Inductive segment :=
| Plain (text : str)
| SGR (params : str).

Definition render (seg : segment) : str :=
  match seg with
  | Plain text => text
  | SGR params => ESC :: 91 :: params ++ [109]
  end.

Definition plain_text (seg : segment) : str :=
  match seg with
  | Plain text => text
  | SGR _ => []
  end.

Definition well_formed (seg : segment) : bool :=
  match seg with
  | Plain text => no_esc text
  | SGR params => forallb is_sgr_param params
  end.

(** What a call may do to the world besides what it returns: a relation
    between the world before and after that holds of doing nothing, of
    logging and calling back, and of filling the cache of
    [debug_print_env]. *)
Class Frame (R : World -> World -> Prop) := {
  frame_refl : forall w, R w w;
  frame_trans : forall w1 w2 w3, R w1 w2 -> R w2 w3 -> R w1 w3;
  frame_events : forall evs w, R w (add_events evs w);
  frame_path : forall p w, R w (with_path_logged p w) }.

(** A computation that stays within [R], whatever it returns. *)
Definition keeps {A} (R : World -> World -> Prop) (m : M A) : Prop :=
  forall w, R w (m w).2.

(** The environment is not written and the trace only grows. *)
Definition grows (w w' : World) : Prop :=
  os_environ w' = os_environ w /\ exists evs, trace w' = trace w ++ evs.

(** As [grows], and the registry is as it was. *)
Definition grows_only (w w' : World) : Prop :=
  grows w w' /\ active_procs w' = active_procs w.

(** An entry of the environment setting given as a list of strings or
    as one string. *)
Definition setting_of_entries (l : list str) (as_string : bool) : setting :=
  match l, as_string with
  | [s], true => SStr s
  | _, _ => SList (List.map SStr l)
  end.

(** The two steps every PATH entry goes through. *)
Definition normalized (h : Host) (s : str) : str := abspath h (expanduser h s).

(** The paths one turn of the loop of [find_executables] tries. *)
Definition probed (h : Host) (executable base : str) : list str :=
  let path := candidate h base executable in
  if bool_decide (platform h = windows) && negb (truthy (splitext_ext h path))
  then List.map (fun extension => path ++ extension) extensions
  else [path].

(** No line boundary in the text. *)
Definition no_break (s : str) : bool :=
  forallb (fun c => negb (is_linebreak c)) s.

(** A PATH entry that shows as a line of its own in the log: it holds
    neither the separator nor a line boundary and is not blank. *)
Definition shown_entry (h : Host) (e : str) : Prop :=
  (pathsep h ∉ e) /\ no_break e = true /\ nonblank e = true.


Definition waits (t : list Event) : nat :=
  length (List.filter (fun ev => match ev with EvCommunicate _ _ => true
                                         | _ => false end) t).

Definition registrations (t : list Event) : nat :=
  length (List.filter (fun ev => match ev with EvRegister _ _ => true
                                         | _ => false end) t).


(** [isinstance(v, (tuple, list))] and [isinstance(v, list)]. *)
Definition is_sequence (v : pyval) : bool :=
  match v with VList _ | VTuple _ => true | _ => false end.

Definition is_list (v : pyval) : bool :=
  match v with VList _ => true | _ => false end.

(** The keys of the object of a JSON text. *)
Definition keys (d : list (str * setting)) : list str := List.map fst d.

(** * Properties *)

(** ** Output post-processor *)

Lemma strip_ansi_nil : strip_ansi [] = [].
Proof. reflexivity. Qed.

Lemma strip_ansi_drop c rest t :
  match_sgr (c :: rest) = Some t -> strip_ansi (c :: rest) = strip_ansi t.
Proof.
  intros H. simp strip_ansi.
  generalize (inspect (match_sgr (c :: rest))).
  intros [[u|] Hu]; simp strip_ansi; congruence.
Qed.

Lemma strip_ansi_keep c rest :
  match_sgr (c :: rest) = None -> strip_ansi (c :: rest) = c :: strip_ansi rest.
Proof.
  intros H. simp strip_ansi.
  generalize (inspect (match_sgr (c :: rest))).
  intros [[u|] Hu]; simp strip_ansi; congruence.
Qed.

Lemma match_sgr_head c rest :
  N.eqb c ESC = false -> match_sgr (c :: rest) = None.
Proof.
  intros H. destruct rest as [|b rest]; simpl; [reflexivity|].
  rewrite H. reflexivity.
Qed.

(** Text without an escape character is left as it is. *)
Lemma strip_ansi_no_esc s : no_esc s = true -> strip_ansi s = s.
Proof.
  induction s as [|c rest IH]; simpl; [reflexivity|].
  intros [Hc Hrest]%andb_true_iff.
  apply negb_true_iff in Hc.
  rewrite strip_ansi_keep by (apply match_sgr_head; exact Hc).
  rewrite IH by exact Hrest. reflexivity.
Qed.

Lemma match_params_suffix s t :
  match_params s = Some t -> exists pre, s = pre ++ t.
Proof.
  revert t. induction s as [|c rest IH]; intros t; simpl; [discriminate|].
  destruct (is_sgr_param c).
  - intros [pre ->]%IH. exists (c :: pre). reflexivity.
  - destruct (N.eqb c 109); [|discriminate].
    intros [= ->]. exists [c]. reflexivity.
Qed.

Lemma match_sgr_suffix s t :
  match_sgr s = Some t -> exists pre, s = pre ++ t.
Proof.
  destruct s as [|e [|b rest]]; simpl; try discriminate.
  destruct (N.eqb e ESC && N.eqb b 91); [|discriminate].
  intros [pre ->]%match_params_suffix. exists (e :: b :: pre). reflexivity.
Qed.

Lemma every_esc_opens_sgr_suffix pre t :
  every_esc_opens_sgr (pre ++ t) = true -> every_esc_opens_sgr t = true.
Proof.
  induction pre as [|c pre IH]; [trivial|].
  cbn [app every_esc_opens_sgr].
  intros [_ H]%andb_true_iff. apply IH, H.
Qed.

(** Where every escape character opens an SGR sequence, none is left. *)
Lemma strip_ansi_removes_esc s :
  every_esc_opens_sgr s = true -> no_esc (strip_ansi s) = true.
Proof.
  remember (length s) as n eqn:Hn. revert s Hn.
  induction n as [n IH] using lt_wf_ind. intros s Hn Hs.
  destruct s as [|c rest]; [reflexivity|].
  destruct (match_sgr (c :: rest)) as [t|] eqn:Hm.
  - rewrite (strip_ansi_drop _ _ _ Hm).
    pose proof (match_sgr_shorter _ _ Hm) as Hlt.
    destruct (match_sgr_suffix _ _ Hm) as [pre Hpre].
    apply (IH (length t)); [lia | reflexivity |].
    apply (every_esc_opens_sgr_suffix pre). rewrite <- Hpre. exact Hs.
  - rewrite (strip_ansi_keep _ _ Hm).
    cbn [every_esc_opens_sgr] in Hs. apply andb_true_iff in Hs as [Hc Hrest].
    cbn [no_esc forallb]. apply andb_true_iff. split.
    + destruct (N.eqb c ESC); [|reflexivity].
      rewrite Hm in Hc. apply bool_decide_eq_true in Hc. congruence.
    + apply (IH (length rest)); [simpl in Hn; lia | reflexivity | exact Hrest].
Qed.

(** C1 (as stated) fails: one pass over [ESC [ ESC [ 3 1 m m] drops the
    inner sequence and leaves [ESC [ m], which a second pass drops too. *)
Lemma strip_ansi_not_idempotent :
  let x := ESC :: lit "[" ++ ESC :: lit "[31mm" in
  strip_ansi x = ESC :: lit "[m" /\
  strip_ansi (strip_ansi x) = [] /\
  strip_ansi (strip_ansi x) <> strip_ansi x.
Proof. vm_compute. repeat split. discriminate. Qed.

(** C1 (amended): [strip_ansi] maps [ESC [31m red ESC [0m] to [red]; text
    without an escape character is left unchanged; and for every text in
    which each escape character opens a complete SGR sequence, stripping
    leaves no escape character and is idempotent. *)
Theorem strip_ansi_idempotent_on_sgr_text :
  strip_ansi post_strip_sample = lit "red" /\
  (forall x, no_esc x = true -> strip_ansi x = x) /\
  (forall x, every_esc_opens_sgr x = true ->
     no_esc (strip_ansi x) = true /\
     strip_ansi (strip_ansi x) = strip_ansi x).
Proof.
  split; [reflexivity|]. split; [exact strip_ansi_no_esc|].
  intros x Hx. pose proof (strip_ansi_removes_esc x Hx) as Hno.
  split; [exact Hno|]. apply strip_ansi_no_esc, Hno.
Qed.

Lemma strip_ansi_idempotent_on_sgr_text_witness :
  every_esc_opens_sgr post_strip_sample = true /\
  strip_ansi (strip_ansi post_strip_sample) = strip_ansi post_strip_sample.
Proof.
  split; [reflexivity|].
  apply (proj2 (proj2 strip_ansi_idempotent_on_sgr_text) post_strip_sample).
  reflexivity.
Defined.

(** ** Decoding *)

(** The decoder on two-, three- and four-byte sequences, and on an
    overlong form, a surrogate and a value above U+10FFFF. *)
Example utf8_decode_samples :
  utf8_decode [Byte.xc3; Byte.xa9; Byte.x41] = Some [233; 65] /\
  utf8_decode [Byte.xe2; Byte.x82; Byte.xac] = Some [8364] /\
  utf8_decode [Byte.xf0; Byte.x9f; Byte.x98; Byte.x80] = Some [128512] /\
  utf8_decode [Byte.xc0; Byte.x80] = None /\
  utf8_decode [Byte.xed; Byte.xa0; Byte.x80] = None /\
  utf8_decode [Byte.xf4; Byte.x90; Byte.x80; Byte.x80] = None /\
  utf8_encode [233; 65; 8364; 128512]
  = Ok [Byte.xc3; Byte.xa9; Byte.x41; Byte.xe2; Byte.x82; Byte.xac;
        Byte.xf0; Byte.x9f; Byte.x98; Byte.x80].
Proof. repeat split. Qed.

Lemma decode_ok h b : decode h b = Ok (decoded_text h b).
Proof.
  destruct b as [[|x bs]|]; try reflexivity.
  unfold decode, decoded_text.
  destruct (utf8_decode (x :: bs)); reflexivity.
Qed.

Lemma utf8_decode_None_nonempty bs : utf8_decode bs = None -> bs <> [].
Proof. intros H ->. discriminate. Qed.

(** C5: [decode] never raises; empty or absent input gives the empty
    string; bytes that are valid UTF-8 give their UTF-8 decoding; other
    bytes give what the preferred encoding of the host decodes them to
    with [errors='replace']. *)
Theorem decode_never_raises h (b : option (list Byte.byte)) :
  exists s, decode h b = Ok s /\
    (b = None \/ b = Some [] -> s = []) /\
    (forall bs t, b = Some bs -> utf8_decode bs = Some t -> s = t) /\
    (forall bs, b = Some bs -> utf8_decode bs = None ->
       s = preferred_decode_replace h bs).
Proof.
  exists (decoded_text h b). split; [apply decode_ok|]. repeat split.
  - intros [-> | ->]; reflexivity.
  - intros bs t -> Ht. unfold decoded_text. rewrite Ht.
    destruct bs; [simpl in Ht; congruence | reflexivity].
  - intros bs -> Hn. unfold decoded_text. rewrite Hn.
    destruct bs; [discriminate | reflexivity].
Qed.

Lemma decode_never_raises_witness :
  let h := Sample.host false [] ∅ false (Ok 1) (Ok ([], [])) in
  decode h None = Ok [] /\ decode h (Some []) = Ok [] /\
  decode h (Some [Byte.xc3; Byte.xa9]) = Ok [233] /\
  decode h (Some [Byte.x61; Byte.xe9]) = Ok [97; 233].
Proof.
  intros h.
  destruct (decode_never_raises h None) as (s0 & E0 & N0 & _).
  destruct (decode_never_raises h (Some [])) as (s1 & E1 & N1 & _).
  destruct (decode_never_raises h (Some [Byte.xc3; Byte.xa9]))
    as (s2 & E2 & _ & U2 & _).
  destruct (decode_never_raises h (Some [Byte.x61; Byte.xe9]))
    as (s3 & E3 & _ & _ & F3).
  rewrite E0, E1, E2, E3.
  rewrite (N0 (or_introl eq_refl)), (N1 (or_intror eq_refl)).
  rewrite (U2 _ [233] eq_refl eq_refl).
  rewrite (F3 _ eq_refl eq_refl).
  repeat split; reflexivity.
Defined.

Lemma post_process_ok h fh : _post_process_fh h fh = Ok (post_processed h fh).
Proof. unfold _post_process_fh. rewrite decode_ok. reflexivity. Qed.

(** ** Diagnostic logger *)

(** With a file behind the view and no working directory, neither branch
    binds [rel_filename]. *)
Lemma rel_filename_unbound h name bid :
  name <> [] -> rel_filename h None (Some (file_view name bid)) = Ok None.
Proof. destruct name; [congruence | reflexivity]. Qed.

Lemma make_nice_log_message_unbound h headline cmd name bid env :
  name <> [] ->
  make_nice_log_message h headline cmd true None
    (Some (file_view name bid)) env
  = Raise (UnboundLocalError (lit "rel_filename")).
Proof.
  intros Hn. unfold make_nice_log_message.
  rewrite (rel_filename_unbound h name bid Hn). reflexivity.
Qed.

(** C9 fails on the code: for a view with a file, no working directory
    and input on standard input, [make_nice_log_message] raises
    [UnboundLocalError] instead of returning the text. *)
Theorem make_nice_log_message_raises :
  make_nice_log_message (Sample.host false [] ∅ false (Ok 1) (Ok ([], [])))
    (lit "Running ...") [lit "flake8"; lit "-"] true None
    (Some (file_view (lit "/tmp/a.py") 7)) None
  = Raise (UnboundLocalError (lit "rel_filename")).
Proof. reflexivity. Qed.

(** ** Stepping through the state and exception monad *)

Lemma mbind_ok {A B} (m : M A) (f : A -> M B) w a w' :
  m w = (Ok a, w') -> (m ≫= f) w = f a w'.
Proof. intros H. unfold mbind, M_bind. rewrite H. reflexivity. Qed.

Lemma mbind_raise {A B} (m : M A) (f : A -> M B) w e w' :
  m w = (Raise e, w') -> (m ≫= f) w = (Raise e, w').
Proof. intros H. unfold mbind, M_bind. rewrite H. reflexivity. Qed.

Lemma add_events_app evs1 evs2 w :
  add_events evs2 (add_events evs1 w) = add_events (evs1 ++ evs2) w.
Proof. unfold add_events. simpl. rewrite app_assoc. reflexivity. Qed.

Lemma add_events_nil w : add_events [] w = w.
Proof. destruct w. unfold add_events. simpl. rewrite app_nil_r. reflexivity. Qed.

Lemma encode_code_world code w : (encode_code code w).2 = w.
Proof.
  destruct code as [c|]; [|reflexivity].
  unfold encode_code, fmap, M_fmap, lift.
  destruct (utf8_encode c); reflexivity.
Qed.

(** ** Process runner: a failed launch *)

(** Where the diagnostic text can be formatted, a failed launch is
    logged, the owner is notified once and the result is the empty
    string. *)
Lemma communicate_launch_failure h cmd code output_stream env cwd _linter
    w code_b w1 e w0 err msg :
  encode_code code w = (Ok code_b, w1) ->
  resolve_env h env w1 = (Ok e, w0) ->
  let uses_stdin := bool_decide (code_b ≠ None) in
  let args := popen_args h cmd uses_stdin output_stream e cwd in
  spawn h args = Raise err ->
  make_nice_log_message h
    (lit "  Execution failed" ++ [LF] ++ [LF] ++ lit "  " ++ exn_str err)
    cmd uses_stdin cwd (_linter ≫= view) (augmented_env e) = Ok msg ->
  communicate h cmd code output_stream env cwd _linter w
  = (Ok (Some []),
     add_events ([EvPopen args; EvLog ERROR msg]
                 ++ if bool_decide (_linter ≠ None) then [EvNotifyFailure]
                    else []) w0).
Proof.
  intros Hcode Henv uses_stdin args Hspawn Hmsg.
  unfold communicate.
  rewrite (mbind_ok _ _ _ _ _ Hcode), (mbind_ok _ _ _ _ _ Henv).
  fold uses_stdin. fold args.
  unfold try_except, Popen.
  unfold mbind at 1, M_bind at 1. unfold emit at 1. cbn beta iota.
  unfold mbind at 1, M_bind at 1. unfold lift at 1. rewrite Hspawn.
  cbn beta iota.
  unfold mbind at 1, M_bind at 1. unfold lift at 1. rewrite Hmsg.
  cbn beta iota.
  unfold mbind, M_bind, log_msg, emit, when, mret, M_ret.
  destruct (bool_decide (_linter ≠ None)); cbn beta iota;
    rewrite !add_events_app; reflexivity.
Qed.

(** C6 fails on the code: the launch of a missing executable fails, the
    owner's view has a file, no working directory is given and the code
    goes to standard input; formatting the diagnostic raises
    [UnboundLocalError] inside the handler, so nothing is logged, the
    owner is not notified and the exception reaches the caller. *)
Theorem communicate_launch_failure_raises :
  let h := Sample.host false [] ∅ false
             (Raise (OSError (lit "No such file or directory")))
             (Ok ([], [])) in
  let r := communicate h [lit "nonexistent"] (Some (lit "x")) STREAM_STDOUT
             None None (Some (linter_of (file_view (lit "/tmp/a.py") 7)))
             (Sample.world {[ PATH := lit "/usr/bin" ]}) in
  r.1 = Raise (UnboundLocalError (lit "rel_filename")) /\
  error_logs (trace r.2) = [] /\
  failure_notifications (trace r.2) = 0%nat.
Proof. vm_compute. repeat split. Qed.

(** The same exception ends a launched run at level INFO before the
    child is registered or waited for. *)
Lemma communicate_info_log_raises :
  let h := Sample.host false [] ∅ true (Ok 1) (Ok ([], [])) in
  let r := communicate h [lit "flake8"; lit "-"] (Some (lit "x")) STREAM_STDOUT
             (Some (EnvDict ∅)) None
             (Some (linter_of (file_view (lit "/tmp/a.py") 7)))
             (Sample.world ∅) in
  r.1 = Raise (UnboundLocalError (lit "rel_filename")) /\
  procs_of (active_procs r.2) (Some 7%Z) = [] /\
  length (trace r.2) = 1%nat.
Proof. vm_compute. repeat split. Qed.

(** Every failed launch with code on standard input, a file behind the
    owner's view and no working directory ends in that exception. *)
Lemma communicate_launch_failure_unbound h cmd c output_stream env
    name bid w code_b w1 e w0 err :
  name <> [] ->
  encode_code (Some c) w = (Ok (Some code_b), w1) ->
  resolve_env h env w1 = (Ok e, w0) ->
  let args := popen_args h cmd true output_stream e None in
  spawn h args = Raise err ->
  communicate h cmd (Some c) output_stream env None
    (Some (linter_of (file_view name bid))) w
  = (Raise (UnboundLocalError (lit "rel_filename")),
     add_events [EvPopen args] w0).
Proof.
  intros Hn Hcode Henv args Hspawn.
  unfold communicate.
  rewrite (mbind_ok _ _ _ _ _ Hcode), (mbind_ok _ _ _ _ _ Henv).
  replace (bool_decide (Some code_b ≠ None)) with true
    by (symmetry; apply bool_decide_eq_true; discriminate).
  fold args. unfold try_except, Popen.
  unfold mbind at 1, M_bind at 1. unfold emit at 1. cbn beta iota.
  unfold mbind at 1, M_bind at 1. unfold lift at 1. rewrite Hspawn.
  cbn beta iota.
  unfold mbind at 1, M_bind at 1. unfold lift at 1.
  cbn [linter_of mbind option_bind view].
  rewrite (make_nice_log_message_unbound h _ cmd name bid _ Hn).
  reflexivity.
Qed.

(** ** Environment resolver *)

Lemma debug_print_env_environ h p w :
  os_environ (debug_print_env h p w).2 = os_environ w.
Proof.
  unfold debug_print_env, mbind, M_bind, get_world.
  destruct (decide (path_logged w = Some p)); reflexivity.
Qed.

(** [create_environment] copies [os.environ] and never writes to it. *)
Lemma create_environment_environ h w :
  os_environ (create_environment h w).2 = os_environ w.
Proof.
  unfold create_environment, mbind, M_bind, get_world, lift.
  destruct (match settings_paths h !! platform h with
            | Some v => _ | None => _ end) as [paths|e]; [|reflexivity].
  destruct (match paths with [] => _ | _ => _ end) as [env|e]; [|reflexivity].
  destruct (info_enabled h); [|reflexivity].
  destruct (env_PATH env) as [p|e]; [|reflexivity].
  unfold when. destruct (truthy p); [|reflexivity].
  pose proof (debug_print_env_environ h p w) as Hd.
  destruct (debug_print_env h p w) as [[[]|e] w']; exact Hd.
Qed.

(** Resolving the environment leaves the registry alone. *)
Lemma create_environment_active_procs h w :
  active_procs (create_environment h w).2 = active_procs w.
Proof.
  unfold create_environment, mbind, M_bind, get_world, lift.
  destruct (match settings_paths h !! platform h with
            | Some v => _ | None => _ end) as [paths|e]; [|reflexivity].
  destruct (match paths with [] => _ | _ => _ end) as [env|e]; [|reflexivity].
  destruct (info_enabled h); [|reflexivity].
  destruct (env_PATH env) as [p|e]; [|reflexivity].
  unfold when. destruct (truthy p); [|reflexivity].
  unfold debug_print_env, mbind, M_bind, get_world.
  destruct (decide (path_logged w = Some p)); reflexivity.
Qed.

Lemma resolve_env_active_procs h env w e w0 :
  resolve_env h env w = (Ok e, w0) -> active_procs w0 = active_procs w.
Proof.
  destruct env as [e'|]; cbn [resolve_env].
  - intros [= _ <-]. reflexivity.
  - unfold fmap, M_fmap. intros H.
    pose proof (create_environment_active_procs h w) as Hc.
    destruct (create_environment h w) as [[d|ex] w']; cbn [snd] in Hc;
      inversion H; subst; exact Hc.
Qed.

Lemma encode_code_same_world code w r w1 :
  encode_code code w = (r, w1) -> w1 = w.
Proof.
  intros H. pose proof (encode_code_world code w) as Hw.
  rewrite H in Hw. exact Hw.
Qed.

(** The last step of [create_environment]: with a PATH in [env], the
    logging returns. *)
Lemma create_environment_log_step (h : Host) (env : gmap str str) (p : str)
    (w : World) :
  env !! PATH = Some p ->
  exists w',
    ((if info_enabled h then
        p ← lift (env_PATH env);
        when (truthy p) (debug_print_env h p)
      else mret tt) ≫= fun _ => mret env) w = (Ok env, w').
Proof.
  intros Hp. unfold mbind, M_bind, lift, env_PATH. rewrite Hp.
  destruct (info_enabled h); [|eexists; reflexivity].
  unfold when. destruct (truthy p); [|eexists; reflexivity].
  unfold debug_print_env, mbind, M_bind, get_world.
  destruct (decide (path_logged w = Some p)); eexists; reflexivity.
Qed.

(** C2 (as stated) fails: with no PATH in the inherited environment and
    the log level at INFO, [env['PATH']] raises [KeyError], with or
    without configured paths. *)
Lemma create_environment_raises_without_PATH :
  let paths : gmap str setting :=
    {[ lit "linux" := SList [SStr (lit "/a"); SStr (lit "/b")] ]} in
  let launch := Ok 1 in
  let io := Ok ([], []) in
  (create_environment (Sample.host false [] ∅ true launch io)
     (Sample.world ∅)).1 = Raise (KeyError PATH) /\
  (create_environment (Sample.host false [] paths false launch io)
     (Sample.world ∅)).1 = Raise (KeyError PATH).
Proof. vm_compute. split; reflexivity. Qed.

(** The configured entries are normalised: on the Windows-like host
    ["/a"] is made absolute on the drive of the working directory. *)
Example create_environment_normalises_entries :
  let paths : gmap str setting :=
    {[ lit "windows" := SList [SStr (lit "/a"); SStr (lit "/b")] ]} in
  let h := Sample.host true [] paths false (Ok 1) (Ok ([], [])) in
  exists env w',
    create_environment h (Sample.world {[ PATH := lit "C:\bin" ]})
    = (Ok env, w') /\
    env !! PATH = Some (lit "C:\a;C:\b;C:\bin").
Proof. do 2 eexists. split; [vm_compute; reflexivity|reflexivity]. Qed.

(** C2 (amended): for every inherited environment that has a PATH: with
    no paths entry for the platform, [create_environment] returns the
    inherited environment unchanged; with the entry [["/a", "/b"]] the
    returned PATH is the two normalised entries and the inherited PATH,
    joined by the path separator (which is ["/a<sep>/b<sep>"] and the
    inherited PATH where normalising leaves ["/a"] and ["/b"] as they
    are), and the other variables are unchanged; [os.environ] is never
    written. *)
Theorem create_environment_PATH (h : Host) (w : World) (p : str) :
  os_environ w !! PATH = Some p ->
  let norm := fun s => abspath h (expanduser h s) in
  os_environ (create_environment h w).2 = os_environ w /\
  (settings_paths h !! platform h = None ->
   exists w', create_environment h w = (Ok (os_environ w), w')) /\
  (settings_paths h !! platform h
     = Some (SList [SStr (lit "/a"); SStr (lit "/b")]) ->
   exists env w',
     create_environment h w = (Ok env, w') /\
     env !! PATH = Some (norm (lit "/a") ++ [pathsep h] ++
                         norm (lit "/b") ++ [pathsep h] ++ p) /\
     (forall k, k <> PATH -> env !! k = os_environ w !! k) /\
     (norm (lit "/a") = lit "/a" -> norm (lit "/b") = lit "/b" ->
      env !! PATH = Some (lit "/a" ++ [pathsep h] ++ lit "/b" ++
                          [pathsep h] ++ p))).
Proof.
  intros Hp norm. split; [apply create_environment_environ|]. split.
  - intros Hcfg. unfold create_environment.
    unfold mbind at 1, M_bind at 1, get_world at 1. cbn beta iota.
    unfold mbind at 1, M_bind at 1, lift at 1. rewrite Hcfg.
    cbn beta iota.
    unfold mbind at 1, M_bind at 1, lift at 1. cbn beta iota.
    exact (create_environment_log_step h (os_environ w) p w Hp).
  - intros Hcfg.
    set (env := <[PATH := norm (lit "/a") ++ [pathsep h] ++
                           norm (lit "/b") ++ [pathsep h] ++ p]>
                  (os_environ w)).
    assert (Henv : env !! PATH
                   = Some (norm (lit "/a") ++ [pathsep h] ++
                           norm (lit "/b") ++ [pathsep h] ++ p))
      by apply lookup_insert_eq.
    destruct (create_environment_log_step h env _ w Henv) as [w' Hw'].
    exists env, w'. split; [|split; [exact Henv|split]].
    + unfold create_environment.
      unfold mbind at 1, M_bind at 1, get_world at 1. cbn beta iota.
      unfold mbind at 1, M_bind at 1, lift at 1. rewrite Hcfg.
      cbn [convert_type_list normalize_entries normalize_entry mbind Res_bind].
      cbn beta iota.
      unfold mbind at 1, M_bind at 1, lift at 1.
      unfold env_PATH. rewrite Hp. cbn [mbind Res_bind join].
      cbn beta iota. rewrite <- !app_assoc. exact Hw'.
    + intros k Hk. subst env. apply lookup_insert_ne. congruence.
    + intros Ha Hb. rewrite Henv, Ha, Hb. reflexivity.
Qed.

Lemma create_environment_PATH_witness :
  let cfg : gmap str setting :=
    {[ lit "linux" := SList [SStr (lit "/a"); SStr (lit "/b")] ]} in
  let w := Sample.world {[ PATH := lit "/usr/bin" ]} in
  (exists w',
     create_environment (Sample.host false [] ∅ true (Ok 1) (Ok ([], []))) w
     = (Ok (os_environ w), w')) /\
  (exists env w',
     create_environment (Sample.host false [] cfg true (Ok 1) (Ok ([], []))) w
     = (Ok env, w') /\
     env !! PATH = Some (lit "/a:/b:/usr/bin")).
Proof.
  intros cfg w. split.
  - destruct (create_environment_PATH
                (Sample.host false [] ∅ true (Ok 1) (Ok ([], []))) w
                (lit "/usr/bin") eq_refl) as (_ & H & _).
    exact (H eq_refl).
  - destruct (create_environment_PATH
                (Sample.host false [] cfg true (Ok 1) (Ok ([], []))) w
                (lit "/usr/bin") eq_refl) as (_ & _ & H).
    destruct (H eq_refl) as (env & w' & E & _ & _ & P).
    exists env, w'. split; [exact E|]. exact (P eq_refl eq_refl).
Defined.

(** ** Executable locator *)

Section Locator.

Context (h : Host).

Lemma find_executables_run name w env w' :
  create_environment h w = (Ok env, w') ->
  find_executables h name w
  = (Ok (flat_map (probe h name)
                  (split (pathsep h) (default [] (env !! PATH)))), w').
Proof.
  intros H. unfold find_executables. rewrite (mbind_ok _ _ _ _ _ H).
  reflexivity.
Qed.

Lemma which_run name w env w' :
  create_environment h w = (Ok env, w') ->
  which h name w
  = (Ok (head (flat_map (probe h name)
                        (split (pathsep h) (default [] (env !! PATH))))), w').
Proof.
  intros H. unfold which.
  rewrite (mbind_ok _ _ _ _ _ (find_executables_run name w env w' H)).
  reflexivity.
Qed.

Lemma flat_map_all_nil {A B} (f : A -> list B) (l : list A) :
  (forall b, b ∈ l -> f b = []) -> flat_map f l = [].
Proof.
  induction l as [|b r IH]; intros H; [reflexivity|].
  simpl. rewrite (H b) by apply list_elem_of_here.
  apply IH. intros c Hc. apply H. apply list_elem_of_further, Hc.
Qed.

(** Where only the entry [d] yields anything, the first path found is the
    first one of [d]. *)
Lemma head_flat_map_only {B} (f : str -> list B) (l : list str) (d : str) :
  (forall b, b ∈ l -> b <> d -> f b = []) ->
  d ∈ l ->
  head (flat_map f l) = head (f d).
Proof.
  intros Hothers Hd.
  assert (G : forall l', (forall b, b ∈ l' -> b <> d -> f b = []) ->
            head (flat_map f l')
            = if bool_decide (d ∈ l') then head (f d) else None).
  { clear. induction l' as [|b r IH]; intros H; [reflexivity|].
    cbn [flat_map].
    assert (Hr : forall c, c ∈ r -> c <> d -> f c = [])
      by (intros c Hc; apply H; apply list_elem_of_further, Hc).
    specialize (IH Hr).
    destruct (decide (b = d)) as [->|Hne].
    - rewrite bool_decide_eq_true_2 by apply list_elem_of_here.
      destruct (f d) as [|x xs] eqn:Hfd; [|reflexivity].
      simpl. rewrite IH. destruct (bool_decide (d ∈ r)); reflexivity.
    - rewrite (H b (list_elem_of_here _ _) Hne). simpl. rewrite IH.
      apply (f_equal (fun c : bool => if c then head (f d) else None)).
      apply bool_decide_ext. rewrite elem_of_cons.
      split; [intros Hin; right; exact Hin|intros [Heq|Hin]; [congruence|exact Hin]]. }
  rewrite (G l Hothers). rewrite bool_decide_eq_true_2 by exact Hd.
  reflexivity.
Qed.

(** The turn of the loop where the candidate is probed as it is. *)
Lemma probe_plain name base :
  platform h <> windows \/ splitext_ext h (candidate h base name) <> [] ->
  probe h name base
  = if can_exec h (candidate h base name) then [candidate h base name]
    else [].
Proof.
  intros H. unfold probe.
  destruct H as [H|H].
  - rewrite bool_decide_eq_false_2 by exact H. reflexivity.
  - destruct (splitext_ext h (candidate h base name)); [congruence|].
    rewrite andb_false_r. reflexivity.
Qed.

(** The turn of the loop on Windows for a candidate without extension. *)
Lemma probe_windows name base :
  platform h = windows ->
  splitext_ext h (candidate h base name) = [] ->
  probe h name base
  = List.filter (can_exec h)
      [candidate h base name ++ lit ".exe";
       candidate h base name ++ lit ".cmd";
       candidate h base name ++ lit ".bat"].
Proof.
  intros Hw He. unfold probe.
  rewrite bool_decide_eq_true_2 by exact Hw. rewrite He. reflexivity.
Qed.

(** Nothing executable under any name the loop probes: nothing found. *)
Lemma probe_absent name base :
  can_exec h (candidate h base name) = false ->
  (forall ext, ext ∈ extensions ->
     can_exec h (candidate h base name ++ ext) = false) ->
  probe h name base = [].
Proof.
  intros Hp He. unfold probe.
  destruct (_ && _).
  - cbn [extensions List.map List.filter].
    rewrite !He by (unfold extensions; set_solver). reflexivity.
  - rewrite Hp. reflexivity.
Qed.

End Locator.

(** C3 (as stated) fails on Windows: [C:\bin\tool] is an executable
    regular file in the only PATH directory, yet [which("tool")] finds
    nothing, because a candidate without extension is only probed with
    [.exe], [.cmd] and [.bat] appended. *)
Lemma which_misses_plain_file_on_windows :
  let h := Sample.host true [lit "C:\bin\tool"] ∅ false (Ok 1) (Ok ([], [])) in
  let w := Sample.world {[ PATH := lit "C:\bin" ]} in
  split (pathsep h) (lit "C:\bin") = [lit "C:\bin"] /\
  candidate h (lit "C:\bin") (lit "tool") = lit "C:\bin\tool" /\
  can_exec h (lit "C:\bin\tool") = true /\
  (which h (lit "tool") w).1 = Ok None.
Proof. vm_compute. repeat split. Qed.

(** C3 (amended): with [env] the resolved environment, a name that is
    executable in no PATH directory, neither as it is nor with [.exe],
    [.cmd] or [.bat] appended, gives [None]; a name that is executable in
    exactly one PATH directory gives its path in that directory where the
    platform is not Windows or the candidates have an extension; on
    Windows, for candidates without extension, the result is the first of
    [name.exe], [name.cmd], [name.bat] that is executable in the one
    directory that has any of them. *)
Theorem which_first_match (h : Host) (w w' : World) (env : gmap str str)
    (name : str) :
  create_environment h w = (Ok env, w') ->
  let bases := split (pathsep h) (default [] (env !! PATH)) in
  ((forall base, base ∈ bases ->
      can_exec h (candidate h base name) = false /\
      forall ext, ext ∈ extensions ->
        can_exec h (candidate h base name ++ ext) = false) ->
   which h name w = (Ok None, w')) /\
  (forall d, d ∈ bases ->
     can_exec h (candidate h d name) = true ->
     (forall b, b ∈ bases -> can_exec h (candidate h b name) = true -> b = d) ->
     (platform h <> windows \/
      forall b, b ∈ bases -> splitext_ext h (candidate h b name) <> []) ->
     which h name w = (Ok (Some (candidate h d name)), w')) /\
  (forall d, d ∈ bases ->
     platform h = windows ->
     (forall b, b ∈ bases -> splitext_ext h (candidate h b name) = []) ->
     (forall b ext, b ∈ bases -> ext ∈ extensions ->
        can_exec h (candidate h b name ++ ext) = true -> b = d) ->
     which h name w
     = (Ok (head (List.filter (can_exec h)
                    [candidate h d name ++ lit ".exe";
                     candidate h d name ++ lit ".cmd";
                     candidate h d name ++ lit ".bat"])), w')).
Proof.
  intros Henv bases. rewrite (which_run h name w env w' Henv). fold bases.
  split; [|split].
  - intros Habs. rewrite flat_map_all_nil; [reflexivity|].
    intros b Hb. destruct (Habs b Hb) as [H1 H2].
    apply probe_absent; assumption.
  - intros d Hd Hexec Huniq Hplain.
    assert (Hp : forall b, b ∈ bases ->
              platform h <> windows \/
              splitext_ext h (candidate h b name) <> [])
      by (intros b Hb; destruct Hplain as [H|H]; [left; exact H|right; auto]).
    rewrite (head_flat_map_only (probe h name) bases d); [| |exact Hd].
    + rewrite probe_plain by (apply Hp, Hd). rewrite Hexec. reflexivity.
    + intros b Hb Hne. rewrite probe_plain by (apply Hp, Hb).
      destruct (can_exec h (candidate h b name)) eqn:E; [|reflexivity].
      destruct Hne. apply Huniq; assumption.
  - intros d Hd Hwin Hnoext Huniq.
    rewrite (head_flat_map_only (probe h name) bases d); [| |exact Hd].
    + rewrite probe_windows by auto. reflexivity.
    + intros b Hb Hne. rewrite probe_windows by auto.
      assert (Hf : forall ext, ext ∈ extensions ->
                can_exec h (candidate h b name ++ ext) = false).
      { intros ext Hext.
        destruct (can_exec h (candidate h b name ++ ext)) eqn:E;
          [|reflexivity].
        destruct Hne. apply (Huniq b ext); assumption. }
      cbn [List.filter].
      rewrite !Hf by (unfold extensions; set_solver). reflexivity.
Qed.

(** Case analysis on the membership of a variable in a list that is
    written out. *)
Ltac each_member H :=
  vm_compute in H;
  repeat (apply elem_of_cons in H as [->|H]);
  try (apply elem_of_nil in H; destruct H).

Lemma which_first_match_witness :
  let hp := Sample.host false [lit "/opt/bin/tool"] ∅ false (Ok 1) (Ok ([], [])) in
  let wp := Sample.world {[ PATH := lit "/usr/bin:/opt/bin" ]} in
  let hw := Sample.host true [lit "C:\bin\tool.cmd"; lit "C:\bin\tool.bat"] ∅
              false (Ok 1) (Ok ([], [])) in
  let ww := Sample.world {[ PATH := lit "C:\sys;C:\bin" ]} in
  which hp (lit "missing") wp = (Ok None, wp) /\
  which hp (lit "tool") wp = (Ok (Some (lit "/opt/bin/tool")), wp) /\
  which hw (lit "tool") ww = (Ok (Some (lit "C:\bin\tool.cmd")), ww).
Proof.
  intros hp wp hw ww.
  assert (Ep : create_environment hp wp = (Ok (os_environ wp), wp))
    by (vm_compute; reflexivity).
  assert (Ew : create_environment hw ww = (Ok (os_environ ww), ww))
    by (vm_compute; reflexivity).
  split; [|split].
  - apply (proj1 (which_first_match hp wp wp _ (lit "missing") Ep)).
    intros b Hb. each_member Hb.
    all: split; [reflexivity|]; intros ext Hext; each_member Hext;
      reflexivity.
  - apply (proj1 (proj2 (which_first_match hp wp wp _ (lit "tool") Ep))
             (lit "/opt/bin")).
    + apply list_elem_of_further, list_elem_of_here.
    + reflexivity.
    + intros b Hb. each_member Hb; [discriminate|reflexivity].
    + left. discriminate.
  - apply (proj2 (proj2 (which_first_match hw ww ww _ (lit "tool") Ew))
             (lit "C:\bin")).
    + apply list_elem_of_further, list_elem_of_here.
    + reflexivity.
    + intros b Hb. each_member Hb; reflexivity.
    + intros b ext Hb Hext. each_member Hb; [|reflexivity].
      each_member Hext; discriminate.
Defined.

Lemma elem_of_flat_map_intro {A B} (f : A -> list B) (l : list A) a x :
  a ∈ l -> x ∈ f a -> x ∈ flat_map f l.
Proof.
  intros Ha Hx. apply list_elem_of_In. apply in_flat_map.
  exists a. split; apply list_elem_of_In; assumption.
Qed.

(** C4: with [env] the resolved environment, on Windows a candidate
    without extension is probed as [.exe], [.cmd], [.bat], in this order,
    and each of them that is an executable regular file is yielded; so a
    PATH directory with [tool.exe] makes the search yield [tool.exe] on
    Windows, and where no PATH directory has [tool] itself the search on
    another platform yields nothing. *)
Theorem find_executables_windows_extensions (h : Host) (w w' : World)
    (env : gmap str str) (name : str) :
  create_environment h w = (Ok env, w') ->
  let bases := split (pathsep h) (default [] (env !! PATH)) in
  let variants := fun b =>
    [candidate h b name ++ lit ".exe"; candidate h b name ++ lit ".cmd";
     candidate h b name ++ lit ".bat"] in
  find_executables h name w = (Ok (flat_map (probe h name) bases), w') /\
  (platform h = windows ->
   (forall b, splitext_ext h (candidate h b name) = [] ->
      probe h name b = List.filter (can_exec h) (variants b)) /\
   (forall d, bases = [d] -> splitext_ext h (candidate h d name) = [] ->
      find_executables h name w
      = (Ok (List.filter (can_exec h) (variants d)), w')) /\
   (forall d, d ∈ bases -> splitext_ext h (candidate h d name) = [] ->
      can_exec h (candidate h d name ++ lit ".exe") = true ->
      exists found, find_executables h name w = (Ok found, w') /\
                    candidate h d name ++ lit ".exe" ∈ found)) /\
  (platform h <> windows ->
   (forall b, b ∈ bases -> can_exec h (candidate h b name) = false) ->
   find_executables h name w = (Ok [], w')).
Proof.
  intros Henv bases variants.
  rewrite (find_executables_run h name w env w' Henv). fold bases.
  split; [reflexivity|]. split.
  - intros Hwin. split; [|split].
    + intros b Hb. apply probe_windows; assumption.
    + intros d Hd Hext. rewrite Hd. cbn [flat_map].
      rewrite app_nil_r, probe_windows by assumption. reflexivity.
    + intros d Hd Hext Hexe. eexists. split; [reflexivity|].
      apply (elem_of_flat_map_intro _ _ d); [exact Hd|].
      rewrite probe_windows by assumption.
      cbn [List.filter]. rewrite Hexe. apply list_elem_of_here.
  - intros Hnw Habs. rewrite flat_map_all_nil; [reflexivity|].
    intros b Hb. rewrite probe_plain by (left; exact Hnw).
    rewrite (Habs b Hb). reflexivity.
Qed.

Lemma find_executables_windows_extensions_witness :
  let files := [lit "C:\bin\tool.exe"; lit "C:\bin\tool.bat"; lit "/bin/tool.exe"] in
  let hw := Sample.host true files ∅ false (Ok 1) (Ok ([], [])) in
  let ww := Sample.world {[ PATH := lit "C:\bin" ]} in
  let hp := Sample.host false files ∅ false (Ok 1) (Ok ([], [])) in
  let wp := Sample.world {[ PATH := lit "/bin" ]} in
  find_executables hw (lit "tool") ww
  = (Ok [lit "C:\bin\tool.exe"; lit "C:\bin\tool.bat"], ww) /\
  (exists found, find_executables hw (lit "tool") ww = (Ok found, ww) /\
                 lit "C:\bin\tool.exe" ∈ found) /\
  find_executables hp (lit "tool") wp = (Ok [], wp).
Proof.
  intros files hw ww hp wp.
  assert (Ew : create_environment hw ww = (Ok (os_environ ww), ww))
    by (vm_compute; reflexivity).
  assert (Ep : create_environment hp wp = (Ok (os_environ wp), wp))
    by (vm_compute; reflexivity).
  destruct (find_executables_windows_extensions hw ww ww _ (lit "tool") Ew)
    as (_ & Hwin & _).
  destruct (Hwin eq_refl) as (_ & Hone & Hexe).
  destruct (find_executables_windows_extensions hp wp wp _ (lit "tool") Ep)
    as (_ & _ & Hother).
  split; [|split].
  - exact (Hone (lit "C:\bin") eq_refl eq_refl).
  - apply (Hexe (lit "C:\bin")); [apply list_elem_of_here|reflexivity..].
  - apply Hother; [discriminate|].
    intros b Hb. each_member Hb. reflexivity.
Defined.

(** ** Live process registry *)

Lemma list_remove_app_last p l :
  exists l', list_remove p (l ++ [p]) = Some l'.
Proof.
  induction l as [|x r [l' IH]]; simpl.
  - rewrite decide_True by reflexivity. eexists; reflexivity.
  - destruct (decide (x = p)); [eexists; reflexivity|].
    rewrite IH. eexists; reflexivity.
Qed.

Lemma procs_of_insert (reg : gmap (option Z) (list Proc)) bid l k :
  procs_of (<[bid := l]> reg) k = if decide (bid = k) then l else procs_of reg k.
Proof.
  unfold procs_of. rewrite lookup_insert.
  destruct (decide (bid = k)); reflexivity.
Qed.

(** The handle a run has registered is there when it deregisters. *)
Lemma reg_remove_append_found bid p reg :
  (reg_remove bid p (reg_append bid p reg)).2 = true.
Proof.
  unfold reg_remove, reg_append. rewrite procs_of_insert.
  rewrite decide_True by reflexivity.
  destruct (list_remove_app_last p (procs_of reg bid)) as [l' ->].
  reflexivity.
Qed.

(** ** Process runner: a launched run *)

Lemma register_run bid proc w :
  register bid proc w
  = (Ok tt, with_active_procs (reg_append bid proc (active_procs w))
              (add_events [EvRegister bid proc] w)).
Proof. reflexivity. Qed.

Lemma deregister_run bid proc w :
  (reg_remove bid proc (active_procs w)).2 = true ->
  deregister bid proc w
  = (Ok tt, with_active_procs (reg_remove bid proc (active_procs w)).1
              (add_events [EvDeregister bid proc] w)).
Proof.
  intros H. unfold deregister, mbind, M_bind, emit, get_world.
  cbn [active_procs add_events].
  destruct (reg_remove bid proc (active_procs w)) as [reg found].
  simpl in H. subst found. reflexivity.
Qed.

Lemma proc_communicate_run h proc input w :
  proc_communicate h proc input w
  = match child_io h proc input with
    | Ok (o, e) =>
        (Ok (streams_of proc o e), add_events [EvCommunicate proc input] w)
    | Raise ex => (Raise ex, add_events [EvCommunicate proc input] w)
    end.
Proof.
  unfold proc_communicate, mbind, M_bind, emit, lift.
  destruct (child_io h proc input) as [[o e]|ex]; reflexivity.
Qed.

Lemma info_log_run h cmd uses_stdin cwd view info w :
  info_log h cmd uses_stdin cwd view info ->
  (if info_enabled h then
     msg ← lift (make_nice_log_message h (lit "Running ...") cmd uses_stdin
                   cwd view None);
     log_msg INFO msg
   else mret tt) w = (Ok tt, add_events info w).
Proof.
  unfold info_log. destruct (info_enabled h).
  - intros (msg & Hmsg & ->). unfold mbind, M_bind, lift. rewrite Hmsg.
    reflexivity.
  - intros ->. rewrite add_events_nil. reflexivity.
Qed.

(** A run whose launch succeeded: the handle is registered, the child is
    waited for, the handle is deregistered, and only then either the
    exception of the wait goes on or the output is selected. *)
Lemma communicate_launched h cmd code output_stream env cwd _linter
    w code_b w1 e w0 pid info :
  encode_code code w = (Ok code_b, w1) ->
  resolve_env h env w1 = (Ok e, w0) ->
  let uses_stdin := bool_decide (code_b ≠ None) in
  let args := popen_args h cmd uses_stdin output_stream e cwd in
  let proc := proc_of args pid in
  let bid := buffer_id <$> (_linter ≫= view) in
  spawn h args = Ok pid ->
  info_log h cmd uses_stdin cwd (_linter ≫= view) info ->
  let w2 := add_events (run_events args info bid proc code_b)
              (with_active_procs
                 (registry_after_run bid proc (active_procs w0)) w0) in
  communicate h cmd code output_stream env cwd _linter w
  = match child_io h proc code_b with
    | Ok (o, err) =>
        select_output h output_stream _linter (streams_of proc o err) w2
    | Raise ex => (Raise ex, w2)
    end.
Proof.
  intros Hcode Henv uses_stdin args proc bid Hspawn Hinfo w2.
  unfold communicate.
  rewrite (mbind_ok _ _ _ _ _ Hcode), (mbind_ok _ _ _ _ _ Henv).
  fold uses_stdin. fold args. fold bid.
  unfold try_except, Popen.
  unfold mbind at 1, M_bind at 1. unfold emit at 1. cbn beta iota.
  unfold mbind at 1, M_bind at 1. unfold lift at 1. rewrite Hspawn.
  cbn beta iota. unfold mret at 1, M_ret at 1. fold (proc_of args pid).
  fold proc.
  rewrite (mbind_ok _ _ _ _ _ (info_log_run h cmd uses_stdin cwd _ info _ Hinfo)).
  rewrite (mbind_ok _ _ _ _ _ (register_run bid proc _)).
  assert (Hw2 : forall w3,
            w3 = with_active_procs
                   (reg_append bid proc (active_procs w0))
                   (add_events [EvRegister bid proc]
                      (add_events info (add_events [EvPopen args] w0))) ->
            with_active_procs
              (reg_remove bid proc
                 (active_procs (add_events [EvCommunicate proc code_b] w3))).1
              (add_events [EvDeregister bid proc]
                 (add_events [EvCommunicate proc code_b] w3)) = w2).
  { intros w3 ->. subst w2. unfold registry_after_run, run_events.
    unfold with_active_procs, add_events. cbn.
    rewrite <- !app_assoc. reflexivity. }
  match goal with |- (_ ≫= _) ?W = _ => remember W as w3 eqn:Ew3 end.
  assert (Hfound : (reg_remove bid proc
                      (active_procs
                         (add_events [EvCommunicate proc code_b] w3))).2
                   = true).
  { rewrite Ew3. cbn [active_procs add_events with_active_procs].
    apply reg_remove_append_found. }
  unfold mbind at 1, M_bind at 1, finally.
  rewrite proc_communicate_run.
  destruct (child_io h proc code_b) as [[o err]|ex];
    rewrite (deregister_run _ _ _ Hfound), (Hw2 w3 Ew3); reflexivity.
Qed.

(** A launched run at level INFO whose log record cannot be formatted
    ends there: the child is neither registered nor waited for. *)
Lemma communicate_launched_log_raises h cmd code output_stream env cwd
    _linter w code_b w1 e w0 pid ex :
  encode_code code w = (Ok code_b, w1) ->
  resolve_env h env w1 = (Ok e, w0) ->
  let uses_stdin := bool_decide (code_b ≠ None) in
  let args := popen_args h cmd uses_stdin output_stream e cwd in
  spawn h args = Ok pid ->
  info_enabled h = true ->
  make_nice_log_message h (lit "Running ...") cmd uses_stdin cwd
    (_linter ≫= view) None = Raise ex ->
  communicate h cmd code output_stream env cwd _linter w
  = (Raise ex, add_events [EvPopen args] w0).
Proof.
  intros Hcode Henv uses_stdin args Hspawn Hinfo Hmsg.
  unfold communicate.
  rewrite (mbind_ok _ _ _ _ _ Hcode), (mbind_ok _ _ _ _ _ Henv).
  fold uses_stdin. fold args.
  unfold try_except, Popen.
  unfold mbind at 1, M_bind at 1. unfold emit at 1. cbn beta iota.
  unfold mbind at 1, M_bind at 1. unfold lift at 1. rewrite Hspawn.
  cbn beta iota. unfold mret at 1, M_ret at 1. rewrite Hinfo.
  unfold mbind at 1, M_bind at 1. unfold mbind at 1, M_bind at 1.
  unfold lift at 1. rewrite Hmsg. reflexivity.
Qed.

(** What [select_output] does to the world: at most one call of the
    owner's [on_stderr]. *)
Lemma select_output_world h output_stream _linter out w :
  exists r post,
    select_output h output_stream _linter out w = (r, add_events post w) /\
    Forall (fun ev => exists s, ev = EvOnStderr s) post.
Proof.
  unfold select_output.
  destruct (Z.eqb output_stream STREAM_STDOUT);
    [|destruct (Z.eqb output_stream STREAM_STDERR);
      [|destruct (Z.eqb output_stream STREAM_BOTH);
        [destruct (on_stderr_declared _linter)|]]].
  all: unfold fmap, M_fmap, mbind, M_bind, lift, when, mret, M_ret, emit.
  all: rewrite ?post_process_ok.
  all: try (destruct (truthy (strip (post_processed h out.2)))).
  all: try (do 2 eexists; split;
            [rewrite <- (add_events_nil w) at 1; reflexivity|constructor]).
  do 2 eexists. split; [reflexivity|].
  constructor; [eexists; reflexivity|constructor].
Qed.

(** Evaluate the tests on a selector that is written out. *)
Ltac eval_selector :=
  repeat match goal with
         | |- context [Z.eqb ?a ?b] =>
             let v := eval vm_compute in (Z.eqb a b) in
             change (Z.eqb a b) with v
         end;
  cbn [negb].

(** C7: in a successful run (the code is encoded, the environment
    resolved, the launch succeeds, the log record is formatted, the child
    is waited for), stdout-only gives the post-processed stdout,
    stderr-only the post-processed stderr; with both streams and a
    callable [on_stderr] of the owner, the result is the post-processed
    stdout and [on_stderr] is called with the post-processed stderr
    exactly when that is not blank; with both and no such callback, the
    result is the two texts one after the other. *)
Theorem communicate_selects_output (h : Host) (cmd : list str)
    (code : option str) (output_stream : Z) (env : option env_arg)
    (cwd : option str) (_linter : option Linter) (w w1 w0 : World)
    (code_b : option (list Byte.byte)) (e : env_arg) (pid : N)
    (info : list Event) (o err : list Byte.byte) :
  encode_code code w = (Ok code_b, w1) ->
  resolve_env h env w1 = (Ok e, w0) ->
  let uses_stdin := bool_decide (code_b ≠ None) in
  let args := popen_args h cmd uses_stdin output_stream e cwd in
  let proc := proc_of args pid in
  let bid := buffer_id <$> (_linter ≫= view) in
  spawn h args = Ok pid ->
  info_log h cmd uses_stdin cwd (_linter ≫= view) info ->
  child_io h proc code_b = Ok (o, err) ->
  let w2 := add_events (run_events args info bid proc code_b)
              (with_active_procs
                 (registry_after_run bid proc (active_procs w0)) w0) in
  let stdout := post_processed h (Some o) in
  let stderr := post_processed h (Some err) in
  let result := communicate h cmd code output_stream env cwd _linter w in
  (output_stream = STREAM_STDOUT -> result = (Ok (Some stdout), w2)) /\
  (output_stream = STREAM_STDERR -> result = (Ok (Some stderr), w2)) /\
  (output_stream = STREAM_BOTH -> on_stderr_declared _linter = true ->
   result = (Ok (Some stdout),
             add_events (if truthy (strip stderr) then [EvOnStderr stderr]
                         else []) w2)) /\
  (output_stream = STREAM_BOTH -> on_stderr_declared _linter = false ->
   result = (Ok (Some (stdout ++ stderr)), w2)).
Proof.
  intros Hcode Henv uses_stdin args proc bid Hspawn Hinfo Hio w2
         stdout stderr result.
  assert (Hrun := communicate_launched h cmd code output_stream env cwd
                    _linter w code_b w1 e w0 pid info Hcode Henv Hspawn Hinfo).
  cbv zeta in Hrun. fold uses_stdin args proc bid w2 in Hrun.
  rewrite Hio in Hrun. fold result in Hrun. rewrite Hrun. clear Hrun result.
  unfold streams_of, select_output.
  subst proc args. cbn [stdout_pipe stderr_pipe proc_of popen_args pa_stdout pa_stderr].
  repeat split; intros Hs; rewrite Hs; eval_selector.
  - unfold fmap, M_fmap, lift. cbn [fst]. rewrite post_process_ok.
    reflexivity.
  - unfold fmap, M_fmap, lift. cbn [snd]. rewrite post_process_ok.
    reflexivity.
  - intros Hcb. rewrite Hcb.
    unfold mbind, M_bind, lift, when, mret, M_ret, emit. cbn [fst snd].
    rewrite !post_process_ok. fold stdout stderr.
    destruct (truthy (strip stderr)); [reflexivity|].
    rewrite add_events_nil. reflexivity.
  - intros Hcb. rewrite Hcb.
    unfold mbind, M_bind, lift, mret, M_ret. cbn [fst snd].
    rewrite !post_process_ok. fold stdout stderr. cbn [join].
    reflexivity.
Qed.

Lemma communicate_selects_output_witness :
  let o := [Byte.x1b; Byte.x5b; Byte.x33; Byte.x31; Byte.x6d; Byte.x68;
            Byte.x69; Byte.x1b; Byte.x5b; Byte.x30; Byte.x6d] in
  let err := [Byte.x77; Byte.x61; Byte.x72; Byte.x6e] in
  let h := Sample.host false [] ∅ false (Ok 1) (Ok (o, err)) in
  let w := Sample.world ∅ in
  let env := Some (EnvDict ∅) in
  let owner := Some (linter_of (file_view (lit "/tmp/a.py") 7)) in
  let run := fun selector _linter =>
    communicate h [lit "tool"] (Some (lit "x")) selector env None _linter w in
  (run STREAM_STDOUT None).1 = Ok (Some (lit "hi")) /\
  (run STREAM_STDERR None).1 = Ok (Some (lit "warn")) /\
  (run STREAM_BOTH owner).1 = Ok (Some (lit "hi")) /\
  on_stderr_calls (trace (run STREAM_BOTH owner).2) = [lit "warn"] /\
  (run STREAM_BOTH None).1 = Ok (Some (lit "hiwarn")).
Proof.
  intros o err h w env owner run.
  pose proof (fun selector _linter =>
    communicate_selects_output h [lit "tool"] (Some (lit "x")) selector env
      None _linter w w w (Some [Byte.x78]) (EnvDict ∅) 1 [] o err
      eq_refl eq_refl eq_refl eq_refl eq_refl) as H.
  cbv zeta in H.
  destruct (H STREAM_STDOUT None) as (H1 & _).
  destruct (H STREAM_STDERR None) as (_ & H2 & _).
  destruct (H STREAM_BOTH owner) as (_ & _ & H3 & _).
  destruct (H STREAM_BOTH None) as (_ & _ & _ & H4).
  unfold run.
  rewrite (H1 eq_refl), (H2 eq_refl), (H3 eq_refl eq_refl),
    (H4 eq_refl eq_refl).
  repeat split; reflexivity.
Defined.



(** ** Registry invariant *)

Lemma list_remove_fresh p l :
  p ∉ l -> list_remove p (l ++ [p]) = Some l.
Proof.
  induction l as [|x r IH]; intros Hp; simpl.
  - rewrite decide_True by reflexivity. reflexivity.
  - apply not_elem_of_cons in Hp as [Hne Hr].
    rewrite decide_False by congruence. rewrite (IH Hr). reflexivity.
Qed.

(** After a run the entry of the owner is what it was, where the handle
    was not in it before; the entries of other owners are untouched. *)
Lemma registry_after_run_procs bid p reg k :
  p ∉ procs_of reg bid ->
  procs_of (registry_after_run bid p reg) k = procs_of reg k.
Proof.
  intros Hp. unfold registry_after_run, reg_remove, reg_append.
  rewrite procs_of_insert, decide_True by reflexivity.
  rewrite (list_remove_fresh _ _ Hp). cbn [fst].
  rewrite procs_of_insert. destruct (decide (bid = k)) as [->|Hne];
    [reflexivity|].
  rewrite procs_of_insert, decide_False by exact Hne. reflexivity.
Qed.

Lemma count_proc_app p l q :
  count_proc p (l ++ [q])
  = (count_proc p l + if bool_decide (q = p) then 1 else 0)%nat.
Proof.
  unfold count_proc. rewrite List.filter_app, length_app. cbn [List.filter].
  destruct (bool_decide (q = p)); reflexivity.
Qed.

Lemma list_remove_count q l l' p :
  list_remove q l = Some l' ->
  (count_proc p l' + (if bool_decide (q = p) then 1 else 0))%nat
  = count_proc p l.
Proof.
  revert l'. induction l as [|x r IH]; intros l'; simpl; [discriminate|].
  destruct (decide (x = q)) as [->|Hne].
  - intros [= ->]. unfold count_proc. cbn [List.filter].
    destruct (bool_decide (q = p)); simpl; lia.
  - destruct (list_remove q r) as [r'|]; [|discriminate].
    intros [= <-]. specialize (IH r' eq_refl).
    unfold count_proc in *. cbn [List.filter].
    destruct (bool_decide (x = p)); simpl; lia.
Qed.

Lemma list_remove_None q l : list_remove q l = None -> count_proc q l = 0%nat.
Proof.
  induction l as [|x r IH]; simpl; [reflexivity|].
  destruct (decide (x = q)) as [->|Hne]; [discriminate|].
  destruct (list_remove q r); [discriminate|]. intros _.
  unfold count_proc in *. cbn [List.filter].
  rewrite bool_decide_eq_false_2 by exact Hne. apply IH. reflexivity.
Qed.

Lemma count_proc_elem_of p l : p ∈ l <-> (0 < count_proc p l)%nat.
Proof.
  unfold count_proc. induction l as [|x r IH]; cbn [List.filter].
  - split; [intros H; inversion H|simpl; lia].
  - rewrite elem_of_cons. destruct (bool_decide (x = p)) eqn:E.
    + apply bool_decide_eq_true in E. simpl. split; [lia|auto].
    + apply bool_decide_eq_false in E. rewrite IH.
      split; [intros [Heq|H]; [congruence|exact H]|auto].
Qed.

Lemma registered_app bid p done op :
  registered bid p (done ++ [op])
  = (registered bid p done
     + match op with
       | OpRegister b q => if bool_decide (b = bid /\ q = p) then 1 else 0
       | OpDeregister _ _ => 0
       end)%nat.
Proof.
  unfold registered. rewrite List.filter_app, length_app. cbn [List.filter].
  destruct op as [b q|b q]; [destruct (bool_decide _)|]; reflexivity.
Qed.

Lemma deregistered_app bid p done op :
  deregistered bid p (done ++ [op])
  = (deregistered bid p done
     + match op with
       | OpDeregister b q => if bool_decide (b = bid /\ q = p) then 1 else 0
       | OpRegister _ _ => 0
       end)%nat.
Proof.
  unfold deregistered. rewrite List.filter_app, length_app. cbn [List.filter].
  destruct op as [b q|b q]; [|destruct (bool_decide _)]; reflexivity.
Qed.

Lemma bool_decide_pair (b bid : option Z) (q p : Proc) :
  bool_decide (b = bid /\ q = p)
  = bool_decide (b = bid) && bool_decide (q = p).
Proof.
  destruct (decide (b = bid)) as [Hb|Hb], (decide (q = p)) as [Hq|Hq].
  - rewrite !bool_decide_eq_true_2 by auto. reflexivity.
  - rewrite (bool_decide_eq_false_2 (q = p)) by exact Hq.
    rewrite andb_false_r. apply bool_decide_eq_false_2. tauto.
  - rewrite (bool_decide_eq_false_2 (b = bid)) by exact Hb.
    apply bool_decide_eq_false_2. tauto.
  - rewrite (bool_decide_eq_false_2 (b = bid)) by exact Hb.
    apply bool_decide_eq_false_2. tauto.
Qed.

Lemma balanced_step done reg op :
  balanced done reg ->
  paired done [op] = true ->
  exists reg', apply_op op reg = Some reg' /\ balanced (done ++ [op]) reg'.
Proof.
  intros Hbal Hp. destruct op as [b q|b q]; cbn [apply_op].
  - eexists. split; [reflexivity|]. intros bid p.
    rewrite registered_app, deregistered_app. unfold reg_append.
    rewrite procs_of_insert, bool_decide_pair. specialize (Hbal bid p).
    destruct (decide (b = bid)) as [->|Hne].
    + rewrite (bool_decide_eq_true_2 (bid = bid)) by reflexivity.
      rewrite count_proc_app. cbn [andb]. lia.
    + rewrite (bool_decide_eq_false_2 (b = bid)) by exact Hne.
      cbn [andb]. lia.
  - cbn [paired] in Hp. apply andb_true_iff in Hp as [Hlt _].
    apply Nat.ltb_lt in Hlt. unfold reg_remove.
    destruct (list_remove q (procs_of reg b)) as [l'|] eqn:Hrm.
    + eexists. split; [reflexivity|]. intros bid p.
      rewrite registered_app, deregistered_app.
      rewrite procs_of_insert, bool_decide_pair. specialize (Hbal bid p).
      destruct (decide (b = bid)) as [->|Hne].
      * rewrite (bool_decide_eq_true_2 (bid = bid)) by reflexivity.
        pose proof (list_remove_count _ _ _ p Hrm). cbn [andb]. lia.
      * rewrite (bool_decide_eq_false_2 (b = bid)) by exact Hne.
        cbn [andb]. lia.
    + apply list_remove_None in Hrm. specialize (Hbal b q). lia.
Qed.

Lemma paired_single done op rest :
  paired done (op :: rest) = true ->
  paired done [op] = true /\ paired (done ++ [op]) rest = true.
Proof.
  destruct op as [b q|b q]; cbn [paired].
  - intros H. split; [reflexivity|exact H].
  - intros [H1 H2]%andb_true_iff. rewrite H1. split; [reflexivity|exact H2].
Qed.

Lemma balanced_run ops : forall done reg,
  balanced done reg ->
  paired done ops = true ->
  exists reg', apply_ops ops reg = Some reg' /\ balanced (done ++ ops) reg'.
Proof.
  induction ops as [|op rest IH]; intros done reg Hbal Hp.
  - exists reg. rewrite app_nil_r. split; [reflexivity|exact Hbal].
  - apply paired_single in Hp as [Hop Hrest].
    destruct (balanced_step done reg op Hbal Hop) as (reg1 & E1 & Hbal1).
    destruct (IH _ _ Hbal1 Hrest) as (reg' & E' & Hbal').
    exists reg'. cbn [apply_ops]. rewrite E1.
    split; [exact E'|]. rewrite <- app_assoc in Hbal'. exact Hbal'.
Qed.

Lemma balanced_empty : balanced [] ∅.
Proof. intros bid p. reflexivity. Qed.

(** C8 fails on the code: with the logger at INFO, code on standard
    input, a file behind the owner's view and no working directory, the
    launch succeeds and formatting the log record raises
    [UnboundLocalError] before the registration: the only event of the
    run is the launch, the child is never registered, waited for or
    deregistered, and the exception reaches the caller. *)
Theorem communicate_launched_not_registered :
  let h := Sample.host false [] ∅ true (Ok 1) (Ok ([], [])) in
  let cmd := [lit "flake8"; lit "-"] in
  let args := popen_args h cmd true STREAM_STDOUT (EnvDict ∅) None in
  let r := communicate h cmd (Some (lit "x")) STREAM_STDOUT
             (Some (EnvDict ∅)) None
             (Some (linter_of (file_view (lit "/tmp/a.py") 7)))
             (Sample.world ∅) in
  spawn h args = Ok 1 /\
  r.1 = Raise (UnboundLocalError (lit "rel_filename")) /\
  trace r.2 = [EvPopen args] /\
  registrations (trace r.2) = 0%nat /\
  waits (trace r.2) = 0%nat.
Proof. vm_compute. repeat split. Qed.

(** X24: a run whose launch succeeded leaves every entry of a registry
    that did not hold the handle as it was, so an entry that is empty
    before the call is empty after it; and where the logger is below
    INFO or the log record of the run can be formatted, the handle is
    registered under the owner's key just before the wait and
    deregistered just after it, also when the wait raises.  After paired
    register and deregister operations on an empty registry, no
    deregistration has failed and an owner's entry holds each handle as
    many times as it was registered and not yet deregistered. *)
Theorem registry_discipline :
  (forall (h : Host) (cmd : list str) (code : option str) (output_stream : Z)
          (env : option env_arg) (cwd : option str) (_linter : option Linter)
          (w w1 w0 : World) (code_b : option (list Byte.byte)) (e : env_arg)
          (pid : N),
     encode_code code w = (Ok code_b, w1) ->
     resolve_env h env w1 = (Ok e, w0) ->
     let uses_stdin := bool_decide (code_b ≠ None) in
     let args := popen_args h cmd uses_stdin output_stream e cwd in
     let proc := proc_of args pid in
     let bid := buffer_id <$> (_linter ≫= view) in
     spawn h args = Ok pid ->
     exists r w',
       communicate h cmd code output_stream env cwd _linter w = (r, w') /\
       (proc ∉ procs_of (active_procs w) bid ->
        forall k, procs_of (active_procs w') k = procs_of (active_procs w) k) /\
       (procs_of (active_procs w) bid = [] ->
        procs_of (active_procs w') bid = []) /\
       (forall info,
          info_log h cmd uses_stdin cwd (_linter ≫= view) info ->
          exists after,
            trace w' = trace w0 ++ [EvPopen args] ++ info ++
                       [EvRegister bid proc; EvCommunicate proc code_b;
                        EvDeregister bid proc] ++ after /\
            Forall (fun ev => exists s, ev = EvOnStderr s) after /\
            (forall ex, child_io h proc code_b = Raise ex ->
                        r = Raise ex /\ after = []))) /\
  (forall ops : list reg_op,
     paired [] ops = true ->
     exists reg,
       apply_ops ops ∅ = Some reg /\
       forall bid p,
         count_proc p (procs_of reg bid)
         = (registered bid p ops - deregistered bid p ops)%nat /\
         (p ∈ procs_of reg bid <->
          (deregistered bid p ops < registered bid p ops)%nat)).
Proof.
  split.
  - intros h cmd code output_stream env cwd _linter w w1 w0 code_b e pid
           Hcode Henv uses_stdin args proc bid Hspawn.
    assert (Hreg : active_procs w0 = active_procs w).
    { rewrite (resolve_env_active_procs h env w1 e w0 Henv).
      rewrite (encode_code_same_world code w _ w1 Hcode). reflexivity. }
    rewrite <- Hreg.
    assert (Hlog : (exists info,
                      info_log h cmd uses_stdin cwd (_linter ≫= view) info) \/
                   (info_enabled h = true /\
                    exists ex,
                      make_nice_log_message h (lit "Running ...") cmd
                        uses_stdin cwd (_linter ≫= view) None = Raise ex)).
    { unfold info_log. destruct (info_enabled h); [|left; eexists; reflexivity].
      destruct (make_nice_log_message h (lit "Running ...") cmd uses_stdin
                  cwd (_linter ≫= view) None) as [msg|ex] eqn:Hmsg.
      - left. exists [EvLog INFO msg]. exists msg. split; reflexivity.
      - right. split; [reflexivity|]. exists ex. reflexivity. }
    destruct Hlog as [[info Hinfo]|[Hen [ex Hmsg]]].
    + assert (Hrun := communicate_launched h cmd code output_stream env cwd
                        _linter w code_b w1 e w0 pid info Hcode Henv Hspawn
                        Hinfo).
      cbv zeta in Hrun. fold uses_stdin args proc bid in Hrun.
      set (w2 := add_events _ _) in Hrun.
      assert (Hfresh : forall post,
                proc ∉ procs_of (active_procs w0) bid ->
                forall k, procs_of (active_procs (add_events post w2)) k
                          = procs_of (active_procs w0) k).
      { intros post Hp k. subst w2.
        cbn [active_procs add_events with_active_procs].
        apply registry_after_run_procs, Hp. }
      assert (Hempty : forall post,
                procs_of (active_procs w0) bid = [] ->
                procs_of (active_procs (add_events post w2)) bid = []).
      { intros post He. rewrite Hfresh; [exact He|].
        rewrite He. apply not_elem_of_nil. }
      assert (Htrace : forall post,
                trace (add_events post w2)
                = trace w0 ++ [EvPopen args] ++ info ++
                  [EvRegister bid proc; EvCommunicate proc code_b;
                   EvDeregister bid proc] ++ post).
      { intros post. subst w2. unfold run_events.
        cbn [trace add_events with_active_procs].
        rewrite <- !app_assoc. reflexivity. }
      assert (Huniq : forall info',
                info_log h cmd uses_stdin cwd (_linter ≫= view) info' ->
                info' = info).
      { intros info'. revert Hinfo. unfold info_log.
        destruct (info_enabled h); [|congruence].
        intros (m & Hm & ->) (m' & Hm' & ->). congruence. }
      destruct (child_io h proc code_b) as [[o err]|ex] eqn:Hio.
      * destruct (select_output_world h output_stream _linter
                    (streams_of proc o err) w2) as (r & post & Hsel & Hpost).
        exists r, (add_events post w2).
        split; [rewrite Hrun; exact Hsel|].
        split; [apply Hfresh|]. split; [apply Hempty|].
        intros info' ->%Huniq. exists post.
        split; [apply Htrace|]. split; [exact Hpost|].
        intros ex; discriminate.
      * exists (Raise ex), (add_events [] w2).
        split; [rewrite Hrun, add_events_nil; reflexivity|].
        split; [apply Hfresh|]. split; [apply Hempty|].
        intros info' ->%Huniq. exists [].
        split; [apply Htrace|]. split; [constructor|].
        intros ex' [= <-]; split; reflexivity.
    + exists (Raise ex), (add_events [EvPopen args] w0).
      split; [apply (communicate_launched_log_raises h cmd code output_stream
                       env cwd _linter w code_b w1 e w0 pid ex);
              assumption|].
      split; [intros _ k; reflexivity|]. split; [intros He; exact He|].
      intros info. unfold info_log. rewrite Hen.
      intros (m & Hm & _). fold uses_stdin in Hmsg. congruence.
  - intros ops Hp.
    destruct (balanced_run ops [] ∅ balanced_empty Hp) as (reg & E & Hbal).
    exists reg. split; [exact E|]. intros bid p.
    specialize (Hbal bid p). cbn [app] in Hbal.
    split; [lia|]. rewrite count_proc_elem_of. lia.
Qed.

Lemma registry_discipline_witness :
  let h := Sample.host false [] ∅ false (Ok 1)
             (Raise (OSError (lit "Broken pipe"))) in
  let owner := linter_of (file_view (lit "/tmp/a.py") 7) in
  let env := EnvDict ∅ in
  let args := popen_args h [lit "tool"] true STREAM_STDOUT env None in
  let proc := proc_of args 1 in
  let p2 := proc_of args 2 in
  let run := communicate h [lit "tool"] (Some (lit "x")) STREAM_STDOUT
               (Some env) None (Some owner) (Sample.world ∅) in
  (run.1 = Raise (OSError (lit "Broken pipe")) /\
   trace run.2 = [EvPopen args; EvRegister (Some 7%Z) proc;
                  EvCommunicate proc (Some [Byte.x78]);
                  EvDeregister (Some 7%Z) proc] /\
   procs_of (active_procs run.2) (Some 7%Z) = []) /\
  (exists reg,
     apply_ops [OpRegister (Some 7%Z) proc; OpRegister (Some 7%Z) p2;
                OpDeregister (Some 7%Z) proc] ∅ = Some reg /\
     count_proc p2 (procs_of reg (Some 7%Z)) = 1%nat /\
     count_proc proc (procs_of reg (Some 7%Z)) = 0%nat).
Proof.
  intros h owner env args proc p2 run.
  destruct registry_discipline as [Hrun Hops]. split.
  - destruct (Hrun h [lit "tool"] (Some (lit "x")) STREAM_STDOUT (Some env)
                None (Some owner) (Sample.world ∅) (Sample.world ∅)
                (Sample.world ∅) (Some [Byte.x78]) env 1
                eq_refl eq_refl eq_refl)
      as (r & w' & E & _ & Hempty & Hwait).
    destruct (Hwait [] eq_refl) as (after & Ht & _ & Hex).
    destruct (Hex _ eq_refl) as [-> ->].
    unfold run. rewrite E. cbn [fst snd].
    split; [reflexivity|]. split; [exact Ht|]. apply Hempty. reflexivity.
  - destruct (Hops [OpRegister (Some 7%Z) proc; OpRegister (Some 7%Z) p2;
                    OpDeregister (Some 7%Z) proc] eq_refl)
      as (reg & E & Hcount).
    exists reg. split; [exact E|].
    split; [apply (Hcount (Some 7%Z) p2)|apply (Hcount (Some 7%Z) proc)].
Defined.

(** * Further properties *)

(** ** Stripping *)

(** X1: [strip_ansi] only deletes: its result is a subsequence of the
    text, so it is never longer and holds no character the text did not
    hold. *)
Theorem strip_ansi_sublist (s : str) :
  sublist (strip_ansi s) s /\
  (length (strip_ansi s) <= length s)%nat /\
  (forall c, c ∈ strip_ansi s -> c ∈ s).
Proof.
  assert (Hsub : sublist (strip_ansi s) s).
  { remember (length s) as n eqn:Hn. revert s Hn.
    induction n as [n IH] using lt_wf_ind. intros s Hn.
    destruct s as [|c rest]; [constructor|].
    destruct (match_sgr (c :: rest)) as [t|] eqn:Hm.
    - rewrite (strip_ansi_drop _ _ _ Hm).
      pose proof (match_sgr_shorter _ _ Hm) as Hlt.
      destruct (match_sgr_suffix _ _ Hm) as [pre Hpre].
      rewrite Hpre. apply sublist_inserts_l.
      apply (IH (length t)); [lia|reflexivity].
    - rewrite (strip_ansi_keep _ _ Hm). apply sublist_skip.
      apply (IH (length rest)); [simpl in Hn; lia|reflexivity]. }
  split; [exact Hsub|]. split.
  - apply sublist_length, Hsub.
  - intros c Hc. eapply elem_of_submseteq; [exact Hc|].
    apply sublist_submseteq, Hsub.
Qed.

Lemma strip_ansi_length (s : str) : (length (strip_ansi s) <= length s)%nat.
Proof.
  remember (length s) as n eqn:Hn. revert s Hn.
  induction n as [n IH] using lt_wf_ind. intros s Hn.
  destruct s as [|c rest]; [rewrite strip_ansi_nil; simpl; lia|].
  destruct (match_sgr (c :: rest)) as [t|] eqn:Hm.
  - rewrite (strip_ansi_drop _ _ _ Hm).
    pose proof (match_sgr_shorter _ _ Hm) as Hlt.
    specialize (IH (length t) ltac:(lia) t eq_refl). lia.
  - rewrite (strip_ansi_keep _ _ Hm).
    specialize (IH (length rest) ltac:(simpl in Hn; lia) rest eq_refl).
    simpl in *. lia.
Qed.

Lemma strip_ansi_shrinks (s : str) :
  has_sgr s = true -> (length (strip_ansi s) < length s)%nat.
Proof.
  induction s as [|c rest IH]; [discriminate|].
  cbn [has_sgr]. destruct (match_sgr (c :: rest)) as [t|] eqn:Hm.
  - intros _. rewrite (strip_ansi_drop _ _ _ Hm).
    pose proof (match_sgr_shorter _ _ Hm).
    pose proof (strip_ansi_length t). lia.
  - rewrite bool_decide_eq_false_2 by (intros H; apply H; reflexivity).
    cbn [orb]. intros H. rewrite (strip_ansi_keep _ _ Hm).
    specialize (IH H). simpl. lia.
Qed.

(** X2: the texts [strip_ansi] leaves unchanged are exactly those in
    which no SGR sequence starts. *)
Theorem strip_ansi_fixed_points (s : str) :
  strip_ansi s = s <-> has_sgr s = false.
Proof.
  split.
  - intros Hfix. destruct (has_sgr s) eqn:Hs; [|reflexivity].
    apply strip_ansi_shrinks in Hs. rewrite Hfix in Hs. lia.
  - induction s as [|c rest IH]; [reflexivity|].
    cbn [has_sgr]. intros [Hm Hrest]%orb_false_iff.
    apply bool_decide_eq_false in Hm.
    destruct (match_sgr (c :: rest)) as [t|] eqn:E; [destruct Hm; discriminate|].
    rewrite (strip_ansi_keep _ _ E), (IH Hrest). reflexivity.
Qed.

Lemma strip_ansi_plain_prefix (t rest : str) :
  no_esc t = true -> strip_ansi (t ++ rest) = t ++ strip_ansi rest.
Proof.
  induction t as [|c t IH]; [reflexivity|].
  cbn [no_esc forallb app]. intros [Hc Ht]%andb_true_iff.
  apply negb_true_iff in Hc.
  rewrite strip_ansi_keep by (apply match_sgr_head; exact Hc).
  rewrite (IH Ht). reflexivity.
Qed.

Lemma match_params_complete (params rest : str) :
  forallb is_sgr_param params = true ->
  match_params (params ++ 109 :: rest) = Some rest.
Proof.
  induction params as [|c ps IH]; [reflexivity|].
  cbn [forallb app match_params]. intros [Hc Hps]%andb_true_iff.
  rewrite Hc. apply IH, Hps.
Qed.

Lemma strip_ansi_sgr_prefix (params rest : str) :
  forallb is_sgr_param params = true ->
  strip_ansi (render (SGR params) ++ rest) = strip_ansi rest.
Proof.
  intros Hps. cbn [render app]. apply strip_ansi_drop.
  cbn [match_sgr]. rewrite <- app_assoc. cbn [app].
  change (N.eqb ESC ESC && N.eqb 91 91) with true. cbn iota.
  apply match_params_complete, Hps.
Qed.

(** X3: for output made of plain text without escape characters and
    complete SGR sequences in any order, [strip_ansi] returns the plain
    text, in order. *)
Theorem strip_ansi_coloured (segs : list segment) :
  forallb well_formed segs = true ->
  strip_ansi (concat (List.map render segs))
  = concat (List.map plain_text segs).
Proof.
  induction segs as [|seg segs IH]; [reflexivity|].
  cbn [forallb List.map concat]. intros [Hseg Hsegs]%andb_true_iff.
  destruct seg as [text|params]; cbn [well_formed plain_text] in *.
  - cbn [render]. rewrite (strip_ansi_plain_prefix _ _ Hseg), (IH Hsegs).
    reflexivity.
  - rewrite (strip_ansi_sgr_prefix _ _ Hseg), (IH Hsegs). reflexivity.
Qed.

Lemma strip_ansi_coloured_witness :
  strip_ansi (concat (List.map render
                        [SGR (lit "1;31"); Plain (lit "error:"); SGR [];
                         Plain (lit " x"); SGR (lit "0")]))
  = lit "error: x".
Proof.
  rewrite (strip_ansi_coloured
             [SGR (lit "1;31"); Plain (lit "error:"); SGR [];
              Plain (lit " x"); SGR (lit "0")] eq_refl).
  reflexivity.
Defined.

(** ** Encoding and decoding *)

Lemma byte_val_to_byte (n : N) : n < 256 -> byte_val (to_byte n) = n.
Proof.
  intros Hn. unfold byte_val, to_byte.
  destruct (Byte.of_N n) as [b|] eqn:E.
  - apply Byte.to_of_N, E.
  - apply Byte.of_N_None_iff in E. lia.
Qed.

Lemma low6_mod (c : N) : low6 c = c mod 64.
Proof. unfold low6. change 63 with (N.ones 6). apply N.land_ones. Qed.

(** The digits of a code point in base 64. *)
Lemma base64_digits (c : N) :
  N.shiftr c 6 = c / 64 /\ N.shiftr c 12 = c / 64 / 64 /\
  N.shiftr c 18 = c / 64 / 64 / 64 /\
  c = c / 64 * 64 + c mod 64 /\ c mod 64 < 64 /\
  c / 64 = c / 64 / 64 * 64 + (c / 64) mod 64 /\ (c / 64) mod 64 < 64 /\
  c / 64 / 64 = c / 64 / 64 / 64 * 64 + (c / 64 / 64) mod 64 /\
  (c / 64 / 64) mod 64 < 64.
Proof.
  rewrite !N.shiftr_div_pow2.
  change (2 ^ 6) with 64. change (2 ^ 12) with (64 * 64).
  change (2 ^ 18) with (64 * 64 * 64).
  rewrite !N.Div0.div_div.
  repeat split;
    try (rewrite N.mul_comm; apply N.div_mod; discriminate);
    try (apply N.mod_lt; discriminate).
  - rewrite <- !N.Div0.div_div. rewrite N.mul_comm. apply N.div_mod. discriminate.
  - rewrite <- !N.Div0.div_div. rewrite N.mul_comm. apply N.div_mod. discriminate.
Qed.

Lemma land_low (k n q : N) :
  q < 2 ^ k -> N.land (n * 2 ^ k + q) (N.ones k) = q.
Proof.
  intros Hq. rewrite N.land_ones.
  rewrite N.add_comm, N.Div0.mod_add. apply N.mod_small, Hq.
Qed.

Lemma utf8_decode_cons (x0 : Byte.byte) (r0 : list Byte.byte) :
  utf8_decode (x0 :: r0)
  = let b0 := byte_val x0 in
    if N.ltb b0 128 then cons b0 <$> utf8_decode r0
    else if in_range 194 223 b0 then
      match r0 with
      | x1 :: r1 =>
          let b1 := byte_val x1 in
          if is_cont b1
          then cons (N.shiftl (N.land b0 31) 6 + low6 b1) <$> utf8_decode r1
          else None
      | _ => None
      end
    else if in_range 224 239 b0 then
      match r0 with
      | x1 :: x2 :: r2 =>
          let b1 := byte_val x1 in
          let b2 := byte_val x2 in
          if (if N.eqb b0 224 then in_range 160 191 b1
              else if N.eqb b0 237 then in_range 128 159 b1
              else is_cont b1) && is_cont b2
          then cons (N.shiftl (N.land b0 15) 12 + N.shiftl (low6 b1) 6
                     + low6 b2) <$> utf8_decode r2
          else None
      | _ => None
      end
    else if in_range 240 244 b0 then
      match r0 with
      | x1 :: x2 :: x3 :: r3 =>
          let b1 := byte_val x1 in
          let b2 := byte_val x2 in
          let b3 := byte_val x3 in
          if (if N.eqb b0 240 then in_range 144 191 b1
              else if N.eqb b0 244 then in_range 128 143 b1
              else is_cont b1) && is_cont b2 && is_cont b3
          then cons (N.shiftl (N.land b0 7) 18 + N.shiftl (low6 b1) 12
                     + N.shiftl (low6 b2) 6 + low6 b3) <$> utf8_decode r3
          else None
      | _ => None
      end
    else None.
Proof. reflexivity. Qed.

(** Decide the comparisons of a goal by linear arithmetic. *)
Ltac decide_comparisons :=
  unfold in_range, is_cont;
  repeat match goal with
         | |- context [N.ltb ?a ?b] =>
             destruct (N.ltb_spec a b); try lia
         | |- context [N.leb ?a ?b] =>
             destruct (N.leb_spec a b); try lia
         | |- context [N.eqb ?a ?b] =>
             destruct (N.eqb_spec a b); try lia
         end;
  cbn [andb orb negb].

Lemma utf8_decode_encode_char (c : char) (bs rest : list Byte.byte) :
  utf8_encode_char c = Some bs ->
  utf8_decode (bs ++ rest) = cons c <$> utf8_decode rest.
Proof.
  unfold utf8_encode_char.
  destruct (base64_digits c)
    as (S6 & S12 & S18 & D0 & R0 & D1 & R1 & D2 & R2).
  rewrite S6, S12, S18, !low6_mod.
  set (a := c / 64) in *. set (r := c mod 64) in *.
  set (b := a / 64) in *. set (ra := a mod 64) in *.
  set (d := b / 64) in *. set (rb := b mod 64) in *.
  destruct (N.ltb_spec c 128) as [H1|H1].
  { intros [= <-]. cbn [app]. rewrite utf8_decode_cons. cbv zeta.
    rewrite byte_val_to_byte by lia.
    destruct (N.ltb_spec c 128); [reflexivity|lia]. }
  destruct (N.ltb_spec c 2048) as [H2|H2].
  { intros [= <-]. cbn [app]. rewrite utf8_decode_cons. cbv zeta.
    rewrite !byte_val_to_byte by lia. rewrite low6_mod.
    change 31 with (N.ones 5).
    replace (192 + a) with (6 * 2 ^ 5 + a) by reflexivity.
    rewrite land_low by (change (2 ^ 5) with 32; lia).
    replace ((128 + r) mod 64) with r
      by (apply (N.mod_unique _ _ 2); lia).
    rewrite N.shiftl_mul_pow2. change (2 ^ 6) with 64.
    replace (a * 64 + r) with c by lia.
    change (6 * 2 ^ 5) with 192.
    decide_comparisons; reflexivity. }
  destruct (in_range 55296 57343 c) eqn:Hsur; [discriminate|].
  assert (Hns : c < 55296 \/ 57343 < c).
  { unfold in_range in Hsur. apply andb_false_iff in Hsur as [H|H].
    - apply N.leb_gt in H. left. exact H.
    - apply N.leb_gt in H. right. exact H. }
  destruct (N.ltb_spec c 65536) as [H3|H3].
  { intros [= <-]. cbn [app]. rewrite utf8_decode_cons. cbv zeta.
    rewrite !byte_val_to_byte by lia. rewrite !low6_mod.
    change 15 with (N.ones 4).
    replace (224 + b) with (14 * 2 ^ 4 + b) by reflexivity.
    rewrite land_low by (change (2 ^ 4) with 16; lia).
    replace ((128 + ra) mod 64) with ra
      by (apply (N.mod_unique _ _ 2); lia).
    replace ((128 + r) mod 64) with r
      by (apply (N.mod_unique _ _ 2); lia).
    rewrite !N.shiftl_mul_pow2. change (2 ^ 6) with 64.
    change (2 ^ 12) with 4096.
    replace (b * 4096 + ra * 64 + r) with c by lia.
    change (14 * 2 ^ 4) with 224.
    decide_comparisons; reflexivity. }
  destruct (N.ltb_spec c 1114112) as [H4|H4]; [|discriminate].
  intros [= <-]. cbn [app]. rewrite utf8_decode_cons. cbv zeta.
  rewrite !byte_val_to_byte by lia. rewrite !low6_mod.
  change 7 with (N.ones 3).
  replace (240 + d) with (30 * 2 ^ 3 + d) by reflexivity.
  rewrite land_low by (change (2 ^ 3) with 8; lia).
  replace ((128 + rb) mod 64) with rb
    by (apply (N.mod_unique _ _ 2); lia).
  replace ((128 + ra) mod 64) with ra
    by (apply (N.mod_unique _ _ 2); lia).
  replace ((128 + r) mod 64) with r
    by (apply (N.mod_unique _ _ 2); lia).
  rewrite !N.shiftl_mul_pow2. change (2 ^ 6) with 64.
  change (2 ^ 12) with 4096. change (2 ^ 18) with 262144.
  replace (d * 262144 + rb * 4096 + ra * 64 + r) with c by lia.
  change (30 * 2 ^ 3) with 240.
  decide_comparisons; reflexivity.
Qed.

Lemma utf8_decode_encode (s : str) (bs : list Byte.byte) :
  utf8_encode s = Ok bs -> utf8_decode bs = Some s.
Proof.
  revert bs. induction s as [|c rest IH]; intros bs; cbn [utf8_encode].
  - intros [= <-]. reflexivity.
  - destruct (utf8_encode_char c) as [cs|] eqn:Hc; [|discriminate].
    destruct (utf8_encode rest) as [rs|e]; [|discriminate].
    intros [= <-]. rewrite (utf8_decode_encode_char c cs rs Hc).
    rewrite (IH rs eq_refl). reflexivity.
Qed.

Lemma decode_of_utf8 (h : Host) (bs : list Byte.byte) (s : str) :
  utf8_decode bs = Some s -> decode h (Some bs) = Ok s.
Proof.
  intros H. rewrite decode_ok. unfold decoded_text. rewrite H.
  destruct bs; [simpl in H; congruence|reflexivity].
Qed.

(** X4: what [communicate] sends comes back unchanged: the bytes of
    [code.encode('utf8')] are decoded by [decode] to [code], whatever
    the preferred encoding of the host is. *)
Theorem decode_encode_round_trip (h : Host) (code : str)
    (sent : list Byte.byte) :
  utf8_encode code = Ok sent ->
  decode h (Some sent) = Ok code /\
  _post_process_fh h (Some sent) = Ok (strip_ansi code).
Proof.
  intros Henc. apply utf8_decode_encode in Henc.
  pose proof (decode_of_utf8 h sent code Henc) as Hd.
  split; [exact Hd|]. unfold _post_process_fh. rewrite Hd. reflexivity.
Qed.

Lemma decode_encode_round_trip_witness :
  let h := Sample.host false [] ∅ false (Ok 1) (Ok ([], [])) in
  decode h (Some [Byte.xc3; Byte.xa9; Byte.xe2; Byte.x82; Byte.xac])
  = Ok [233; 8364].
Proof.
  intros h.
  exact (proj1 (decode_encode_round_trip h [233; 8364] _ eq_refl)).
Defined.

Lemma utf8_decode_ascii (bs : list Byte.byte) :
  Forall (fun x => byte_val x < 128) bs ->
  utf8_decode bs = Some (List.map byte_val bs).
Proof.
  induction 1 as [|x bs Hx _ IH]; [reflexivity|].
  rewrite utf8_decode_cons. cbv zeta.
  rewrite (proj2 (N.ltb_lt _ _) Hx), IH. reflexivity.
Qed.

(** X5: output that is pure ASCII is decoded byte for byte, whatever the
    preferred encoding of the host is; without an escape character it
    is also what [_post_process_fh] returns. *)
Theorem decode_ascii (h : Host) (out : list Byte.byte) :
  Forall (fun x => byte_val x < 128) out ->
  decode h (Some out) = Ok (List.map byte_val out) /\
  (no_esc (List.map byte_val out) = true ->
   _post_process_fh h (Some out) = Ok (List.map byte_val out)).
Proof.
  intros Hascii.
  pose proof (decode_of_utf8 h out _ (utf8_decode_ascii out Hascii)) as Hd.
  split; [exact Hd|]. intros Hno. unfold _post_process_fh. rewrite Hd.
  cbn [mbind Res_bind]. rewrite (strip_ansi_no_esc _ Hno). reflexivity.
Qed.

Lemma decode_ascii_witness :
  let h := Sample.host false [] ∅ false (Ok 1) (Ok ([], [])) in
  _post_process_fh h (Some [Byte.x6f; Byte.x6b; Byte.x0a]) = Ok (lit "ok" ++ [LF]).
Proof.
  intros h.
  refine (proj2 (decode_ascii h [Byte.x6f; Byte.x6b; Byte.x0a] _) eq_refl).
  repeat constructor.
Defined.

(** ** Environment *)

Lemma normalize_entries_strings (h : Host) (l : list str) :
  normalize_entries h (List.map SStr l) = Ok (List.map (normalized h) l).
Proof.
  induction l as [|s l IH]; [reflexivity|].
  cbn [List.map normalize_entries normalize_entry mbind Res_bind].
  rewrite IH. reflexivity.
Qed.

Lemma convert_type_list_entries (l : list str) (as_string : bool) :
  convert_type_list (setting_of_entries l as_string)
  = Some (List.map SStr l).
Proof. destruct l as [|s [|s' l]], as_string; reflexivity. Qed.

(** The environment [create_environment] returns for configured string
    entries. *)
Lemma create_environment_entries (h : Host) (w : World) (p : str)
    (l : list str) (as_string : bool) :
  os_environ w !! PATH = Some p ->
  settings_paths h !! platform h = Some (setting_of_entries l as_string) ->
  exists w',
    create_environment h w
    = (Ok (match l with
           | [] => os_environ w
           | _ => <[PATH := join [pathsep h] (List.map (normalized h) l)
                            ++ [pathsep h] ++ p]> (os_environ w)
           end), w').
Proof.
  intros Hp Hcfg.
  set (env := match l with
              | [] => os_environ w
              | _ => <[PATH := join [pathsep h] (List.map (normalized h) l)
                               ++ [pathsep h] ++ p]> (os_environ w)
              end).
  assert (Henv : exists p', env !! PATH = Some p').
  { subst env. destruct l; [exists p; exact Hp|].
    eexists. apply lookup_insert_eq. }
  destruct Henv as [p' Hp'].
  destruct (create_environment_log_step h env p' w Hp') as [w' Hw'].
  exists w'. unfold create_environment.
  unfold mbind at 1, M_bind at 1, get_world at 1. cbn beta iota.
  unfold mbind at 1, M_bind at 1, lift at 1. rewrite Hcfg.
  rewrite convert_type_list_entries, normalize_entries_strings.
  cbn beta iota.
  unfold mbind at 1, M_bind at 1, lift at 1.
  destruct l as [|s l]; cbn [List.map]; cbn beta iota; [exact Hw'|].
  unfold env_PATH. rewrite Hp. cbn [mbind Res_bind]. cbn beta iota.
  exact Hw'.
Qed.

(** X6: with a PATH in the inherited environment, every configured
    entry, given as a list of strings or as one string, is normalised
    and put before the inherited PATH, in the order of the setting; an
    empty list changes nothing; no other variable changes. *)
Theorem create_environment_prepends (h : Host) (w : World) (p : str)
    (l : list str) (as_string : bool) :
  os_environ w !! PATH = Some p ->
  settings_paths h !! platform h = Some (setting_of_entries l as_string) ->
  exists env w',
    create_environment h w = (Ok env, w') /\
    env !! PATH
    = Some (match l with
            | [] => p
            | _ => join [pathsep h] (List.map (normalized h) l)
                   ++ [pathsep h] ++ p
            end) /\
    forall k, k <> PATH -> env !! k = os_environ w !! k.
Proof.
  intros Hp Hcfg.
  destruct (create_environment_entries h w p l as_string Hp Hcfg) as [w' E].
  eexists _, w'. split; [exact E|].
  destruct l as [|s l].
  - split; [exact Hp|]. reflexivity.
  - split; [apply lookup_insert_eq|].
    intros k Hk. apply lookup_insert_ne. congruence.
Qed.

Lemma create_environment_prepends_witness :
  let w := Sample.world {[ PATH := lit "/usr/bin" ]} in
  let host := fun cfg => Sample.host false [] {[ lit "linux" := cfg ]} false
                           (Ok 1) (Ok ([], [])) in
  (exists env w',
     create_environment (host (SStr (lit "~/bin"))) w = (Ok env, w') /\
     env !! PATH = Some (lit "/home/u/bin:/usr/bin")) /\
  (exists env w',
     create_environment
       (host (SList [SStr (lit "/a"); SStr (lit "b"); SStr (lit "/c")])) w
     = (Ok env, w') /\
     env !! PATH = Some (lit "/a:/work/b:/c:/usr/bin")).
Proof.
  intros w host. split.
  - destruct (create_environment_prepends (host (SStr (lit "~/bin"))) w
                (lit "/usr/bin") [lit "~/bin"] true eq_refl eq_refl)
      as (env & w' & E & P & _).
    exists env, w'. split; [exact E|exact P].
  - destruct (create_environment_prepends
                (host (SList [SStr (lit "/a"); SStr (lit "b"); SStr (lit "/c")]))
                w (lit "/usr/bin") [lit "/a"; lit "b"; lit "/c"] false
                eq_refl eq_refl)
      as (env & w' & E & P & _).
    exists env, w'. split; [exact E|exact P].
Defined.

(** The logging step of [create_environment], run again on the world it
    left, does nothing. *)
Lemma log_step_twice (h : Host) (env : gmap str str) (w w1 : World) :
  ((if info_enabled h then
      p ← lift (env_PATH env);
      when (truthy p) (debug_print_env h p)
    else mret tt) ≫= fun _ => mret env) w = (Ok env, w1) ->
  ((if info_enabled h then
      p ← lift (env_PATH env);
      when (truthy p) (debug_print_env h p)
    else mret tt) ≫= fun _ => mret env) w1 = (Ok env, w1).
Proof.
  unfold mbind, M_bind, lift.
  destruct (info_enabled h); [|intros [= <-]; reflexivity].
  destruct (env_PATH env) as [p|e]; [|discriminate].
  unfold when. destruct (truthy p); [|intros [= <-]; reflexivity].
  unfold debug_print_env, mbind, M_bind, get_world.
  destruct (decide (path_logged w = Some p)) as [Hl|Hl].
  - intros [= <-]. rewrite decide_True by exact Hl. reflexivity.
  - intros [= <-]. cbn [path_logged with_path_logged add_events].
    rewrite decide_True by reflexivity. reflexivity.
Qed.

(** [create_environment] in two steps: the environment, from
    [os.environ] and the setting alone, then the logging. *)
Lemma create_environment_steps (h : Host) (w : World) :
  create_environment h w
  = match (paths ← match settings_paths h !! platform h with
                   | Some v =>
                       match convert_type_list v with
                       | Some l => normalize_entries h l
                       | None => Raise (TypeError (lit "'NoneType' object is not iterable"))
                       end
                   | None => Ok []
                   end;
           match paths with
           | [] => Ok (os_environ w)
           | _ =>
               p ← env_PATH (os_environ w);
               Ok (<[PATH := join [pathsep h] paths ++ [pathsep h] ++ p]>
                     (os_environ w))
           end) with
    | Ok env =>
        ((if info_enabled h then
            p ← lift (env_PATH env);
            when (truthy p) (debug_print_env h p)
          else mret tt) ≫= fun _ => mret env) w
    | Raise e => (Raise e, w)
    end.
Proof.
  unfold create_environment.
  unfold mbind at 1, M_bind at 1, get_world at 1. cbn beta iota.
  unfold mbind at 1, M_bind at 1, lift at 1.
  destruct (match settings_paths h !! platform h with
            | Some v => _ | None => _ end) as [paths|e]; [|reflexivity].
  cbn [mbind Res_bind]. cbn beta iota.
  unfold mbind at 1, M_bind at 1, lift at 1.
  destruct (match paths with [] => _ | _ => _ end) as [env|e]; reflexivity.
Qed.

(** X7: the PATH is logged once ([lru_cache]): a second call of
    [create_environment] right after a first one that returned gives the
    same environment and changes nothing, so it logs nothing. *)
Theorem create_environment_again (h : Host) (w w1 : World)
    (env : gmap str str) :
  create_environment h w = (Ok env, w1) ->
  create_environment h w1 = (Ok env, w1).
Proof.
  intros H.
  assert (Henv : os_environ w1 = os_environ w).
  { pose proof (create_environment_environ h w) as E. rewrite H in E.
    exact E. }
  rewrite create_environment_steps in H |- *. rewrite Henv.
  destruct (_ ≫= _) as [env'|e]; [|discriminate].
  assert (env' = env) as ->.
  { revert H. unfold mbind at 1, M_bind at 1.
    match goal with
    | |- match ?X with _ => _ end = _ -> _ =>
        destruct X as [[[]|e] w']; [|discriminate]
    end.
    intros [= <- _]. reflexivity. }
  apply (log_step_twice h env w w1 H).
Qed.

Lemma create_environment_again_witness :
  let h := Sample.host false [] ∅ true (Ok 1) (Ok ([], [])) in
  let w := Sample.world {[ PATH := lit "/usr/bin" ]} in
  let w1 := (create_environment h w).2 in
  length (trace w1) = 1%nat /\
  create_environment h w1 = (Ok (os_environ w), w1).
Proof.
  intros h w w1. split; [reflexivity|].
  apply (create_environment_again h w w1). reflexivity.
Defined.

(** X8: [create_environment] logs at most one record, at level INFO,
    and leaves the registry alone; with the logger below INFO it changes
    nothing at all, whether it returns or raises. *)
Theorem create_environment_logs_at_most_once (h : Host) (w : World) :
  (info_enabled h = false -> (create_environment h w).2 = w) /\
  (exists evs,
     trace (create_environment h w).2 = trace w ++ evs /\
     (length evs <= 1)%nat /\
     Forall (fun ev => exists msg, ev = EvLog INFO msg) evs) /\
  active_procs (create_environment h w).2 = active_procs w.
Proof.
  split; [|split; [|apply create_environment_active_procs]].
  - intros Hq. rewrite create_environment_steps.
    destruct (_ ≫= _) as [env|e]; [|reflexivity].
    unfold mbind, M_bind. rewrite Hq. reflexivity.
  - rewrite create_environment_steps.
    destruct (_ ≫= _) as [env|e];
      [|exists []; rewrite app_nil_r; repeat split; [simpl; lia|constructor]].
    unfold mbind, M_bind, lift.
    destruct (info_enabled h);
      [|exists []; rewrite app_nil_r; repeat split; [simpl; lia|constructor]].
    destruct (env_PATH env) as [p|e];
      [|exists []; rewrite app_nil_r; repeat split; [simpl; lia|constructor]].
    unfold when. destruct (truthy p);
      [|exists []; rewrite app_nil_r; repeat split; [simpl; lia|constructor]].
    unfold debug_print_env, mbind, M_bind, get_world.
    destruct (decide (path_logged w = Some p));
      [exists []; rewrite app_nil_r; repeat split; [simpl; lia|constructor]|].
    eexists [_]. repeat split; [simpl; lia|].
    constructor; [eexists; reflexivity|constructor].
Qed.

Lemma create_environment_logs_at_most_once_witness :
  let h := Sample.host false [] ∅ false (Ok 1) (Ok ([], [])) in
  (create_environment h (Sample.world ∅)).2 = Sample.world ∅.
Proof.
  intros h.
  exact (proj1 (create_environment_logs_at_most_once h (Sample.world ∅))
           eq_refl).
Defined.

Lemma lstrip_all_space (s : str) : forallb isspace s = true -> lstrip s = [].
Proof.
  induction s as [|c rest IH]; [reflexivity|].
  cbn [forallb lstrip]. intros [Hc Hr]%andb_true_iff. rewrite Hc. auto.
Qed.

Lemma lstrip_some_text (s : str) :
  forallb isspace s = false -> forallb isspace (lstrip s) = false.
Proof.
  induction s as [|c rest IH]; [discriminate|].
  cbn [forallb lstrip]. destruct (isspace c) eqn:Hc.
  - cbn [andb]. exact IH.
  - intros _. cbn [forallb]. rewrite Hc. reflexivity.
Qed.

Lemma forallb_rev {A} (f : A -> bool) (l : list A) :
  forallb f (rev l) = forallb f l.
Proof.
  induction l as [|x l IH]; [reflexivity|].
  cbn [rev forallb]. rewrite forallb_app, IH. cbn [forallb].
  rewrite andb_true_r. apply andb_comm.
Qed.

(** A line is indented by [textwrap.indent] exactly when it holds a
    character that is no white space. *)
Lemma nonblank_spec (s : str) : nonblank s = negb (forallb isspace s).
Proof.
  unfold nonblank, strip. destruct (forallb isspace s) eqn:Hs.
  - rewrite (lstrip_all_space s Hs). reflexivity.
  - apply lstrip_some_text in Hs. rewrite <- forallb_rev in Hs.
    apply lstrip_some_text in Hs.
    unfold char in Hs.
    destruct (lstrip (rev (lstrip s))) as [|x l]; [simpl in Hs; discriminate|].
    cbn [rev]. destruct (rev l); reflexivity.
Qed.

Lemma nonblank_app (e t : str) : nonblank e = true -> nonblank (e ++ t) = true.
Proof.
  rewrite !nonblank_spec, forallb_app. intros H%negb_true_iff.
  apply negb_true_iff, andb_false_iff. left. exact H.
Qed.

Lemma splitlines_keep_line (e : str) : forall (cur rest : str),
  no_break e = true ->
  splitlines_keep cur (e ++ LF :: rest)
  = (rev cur ++ e ++ [LF]) :: splitlines_keep [] rest.
Proof.
  induction e as [|c e IH]; intros cur rest He.
  - reflexivity.
  - cbn [no_break forallb] in He. apply andb_true_iff in He as [Hc He].
    apply negb_true_iff in Hc. cbn [app splitlines_keep].
    assert (H13 : N.eqb c 13 = false).
    { destruct (N.eqb_spec c 13) as [E|]; [|reflexivity].
      subst c. vm_compute in Hc. discriminate. }
    rewrite H13, Hc, (IH _ _ He). cbn [rev]. rewrite <- !app_assoc.
    reflexivity.
Qed.

Lemma splitlines_keep_last (e : str) : forall (cur : str),
  no_break e = true -> rev cur ++ e <> [] ->
  splitlines_keep cur e = [rev cur ++ e].
Proof.
  induction e as [|c e IH]; intros cur He Hne.
  - rewrite app_nil_r in *. cbn [splitlines_keep].
    destruct cur; [simpl in Hne; congruence|reflexivity].
  - cbn [no_break forallb] in He. apply andb_true_iff in He as [Hc He].
    apply negb_true_iff in Hc. cbn [splitlines_keep].
    assert (H13 : N.eqb c 13 = false).
    { destruct (N.eqb_spec c 13) as [E|]; [|reflexivity].
      subst c. vm_compute in Hc. discriminate. }
    rewrite H13, Hc, (IH _ He).
    + cbn [rev]. rewrite <- app_assoc. reflexivity.
    + cbn [rev]. rewrite <- app_assoc. cbn [app].
      intros H. apply app_eq_nil in H as [_ H]. discriminate.
Qed.

Lemma indent_lines (prefix : str) (entries : list str) :
  Forall (fun e => no_break e = true /\ nonblank e = true) entries ->
  indent (join [LF] entries) prefix nonblank
  = join [LF] (List.map (app prefix) entries).
Proof.
  induction 1 as [|e es [Hb Hn] Hes IH]; [reflexivity|].
  destruct es as [|e' es].
  - cbn [join List.map]. unfold indent.
    rewrite (splitlines_keep_last e [] Hb).
    + cbn [rev app List.map concat]. rewrite Hn, app_nil_r. reflexivity.
    + cbn [rev app]. intros ->. rewrite nonblank_spec in Hn. discriminate.
  - change (join [LF] (e :: e' :: es)) with (e ++ LF :: join [LF] (e' :: es)).
    change (join [LF] (List.map (app prefix) (e :: e' :: es)))
      with ((prefix ++ e) ++ [LF] ++ join [LF] (List.map (app prefix) (e' :: es))).
    unfold indent in *. rewrite (splitlines_keep_line e [] _ Hb).
    cbn [rev app List.map concat].
    rewrite (nonblank_app e [LF] Hn), IH, <- !app_assoc. reflexivity.
Qed.

Lemma replace_char_app (a : char) (b s t : str) :
  replace_char a b (s ++ t) = replace_char a b s ++ replace_char a b t.
Proof. unfold replace_char. rewrite List.map_app, concat_app. reflexivity. Qed.

Lemma replace_char_absent (a : char) (b s : str) :
  a ∉ s -> replace_char a b s = s.
Proof.
  unfold replace_char. induction s as [|c s IH]; [reflexivity|].
  intros [Hc Hs]%not_elem_of_cons. cbn [List.map concat].
  destruct (N.eqb_spec c a) as [->|_]; [congruence|].
  rewrite (IH Hs). reflexivity.
Qed.

Lemma replace_char_join (a : char) (b : str) (entries : list str) :
  Forall (fun e => a ∉ e) entries ->
  replace_char a b (join [a] entries) = join b entries.
Proof.
  induction 1 as [|e es He Hes IH]; [reflexivity|].
  destruct es as [|e' es].
  - cbn [join]. apply replace_char_absent, He.
  - change (join [a] (e :: e' :: es)) with (e ++ [a] ++ join [a] (e' :: es)).
    change (join b (e :: e' :: es)) with (e ++ b ++ join b (e' :: es)).
    rewrite !replace_char_app, IH, (replace_char_absent _ _ _ He).
    unfold replace_char at 1. cbn [List.map concat].
    rewrite N.eqb_refl, app_nil_r. reflexivity.
Qed.

(** X9: [debug_print_env] logs the PATH one entry a line, each indented
    by four spaces, under the heading [PATH:], and remembers the value;
    this for a PATH that is not the remembered one and whose entries
    hold neither the separator nor a line boundary and are not blank. *)
Theorem debug_print_env_lines (h : Host) (entries : list str) (w : World) :
  Forall (shown_entry h) entries ->
  let path := join [pathsep h] entries in
  path_logged w <> Some path ->
  debug_print_env h path w
  = (Ok tt,
     with_path_logged path
       (add_events
          [EvLog INFO (lit "PATH:" ++ [LF] ++
                       join [LF] (List.map (app (lit "    ")) entries))]
          w)).
Proof.
  intros Hentries path Hnew.
  unfold debug_print_env, mbind, M_bind, get_world.
  rewrite decide_False by exact Hnew.
  unfold log_msg, emit, set_path_logged. subst path.
  rewrite replace_char_join, indent_lines; [reflexivity| |].
  - eapply Forall_impl; [exact Hentries|]. intros e (_ & Hb & Hn). auto.
  - eapply Forall_impl; [exact Hentries|]. intros e (Hs & _). exact Hs.
Qed.

Lemma debug_print_env_lines_witness :
  let h := Sample.host false [] ∅ true (Ok 1) (Ok ([], [])) in
  trace (debug_print_env h (lit "/usr/bin:/opt/my tools/bin") (Sample.world ∅)).2
  = [EvLog INFO (lit "PATH:" ++ [LF] ++ lit "    /usr/bin" ++ [LF] ++
                 lit "    /opt/my tools/bin")].
Proof.
  intros h.
  rewrite (debug_print_env_lines h [lit "/usr/bin"; lit "/opt/my tools/bin"]
             (Sample.world ∅)).
  - reflexivity.
  - repeat constructor; vm_compute; intros H;
      repeat (apply elem_of_cons in H as [H|H]; [discriminate|]);
      apply elem_of_nil in H; exact H.
  - discriminate.
Defined.

(** ** Search order *)

Lemma split_absent (sep : char) (a : str) : sep ∉ a -> split sep a = [a].
Proof.
  induction a as [|c a IH]; [reflexivity|].
  intros [Hc Ha]%not_elem_of_cons. cbn [split].
  destruct (N.eqb_spec c sep) as [->|_]; [congruence|].
  rewrite (IH Ha). reflexivity.
Qed.

Lemma split_app (sep : char) (a b : str) :
  sep ∉ a -> split sep (a ++ sep :: b) = a :: split sep b.
Proof.
  induction a as [|c a IH].
  - intros _. cbn [app split]. rewrite N.eqb_refl. reflexivity.
  - intros [Hc Ha]%not_elem_of_cons. cbn [app split].
    destruct (N.eqb_spec c sep) as [->|_]; [congruence|].
    rewrite (IH Ha). reflexivity.
Qed.

Lemma split_join_app (sep : char) (parts : list str) (p : str) :
  Forall (fun e => sep ∉ e) parts -> parts <> [] ->
  split sep (join [sep] parts ++ [sep] ++ p) = parts ++ split sep p.
Proof.
  induction 1 as [|e es He Hes IH]; [congruence|]. intros _.
  destruct es as [|e' es].
  - cbn [join app]. apply split_app, He.
  - change (join [sep] (e :: e' :: es)) with (e ++ [sep] ++ join [sep] (e' :: es)).
    rewrite <- !app_assoc. cbn [app]. rewrite (split_app _ _ _ He).
    cbn [app]. f_equal. apply IH. discriminate.
Qed.

(** X10: the configured directories are searched first: with a PATH in
    the inherited environment and configured entries whose normal forms
    do not hold the separator, [find_executables] goes through the
    normalised entries in the order of the setting and then through the
    directories of the inherited PATH. *)
Theorem configured_directories_first (h : Host) (w : World) (p : str)
    (l : list str) (as_string : bool) (name : str) :
  os_environ w !! PATH = Some p ->
  settings_paths h !! platform h = Some (setting_of_entries l as_string) ->
  Forall (fun e => pathsep h ∉ normalized h e) l ->
  exists w',
    find_executables h name w
    = (Ok (flat_map (probe h name)
             (List.map (normalized h) l ++ split (pathsep h) p)), w').
Proof.
  intros Hp Hcfg Hsep.
  destruct (create_environment_entries h w p l as_string Hp Hcfg) as [w' E].
  exists w'. rewrite (find_executables_run h name w _ w' E).
  destruct l as [|e l]; cbn beta iota.
  - unfold str in *. rewrite Hp. reflexivity.
  - unfold str in *. rewrite lookup_insert_eq. cbn [from_option].
    unfold id. rewrite split_join_app; [reflexivity| |discriminate].
    apply Forall_map. exact Hsep.
Qed.

Lemma configured_directories_first_witness :
  let cfg : gmap str setting :=
    {[ lit "linux" := SList [SStr (lit "~/bin"); SStr (lit "/opt/bin")] ]} in
  let h := Sample.host false [lit "/usr/bin/tool"; lit "/opt/bin/tool"] cfg
             false (Ok 1) (Ok ([], [])) in
  let w := Sample.world {[ PATH := lit "/usr/bin:/bin" ]} in
  (find_executables h (lit "tool") w).1
  = Ok [lit "/opt/bin/tool"; lit "/usr/bin/tool"].
Proof.
  intros cfg h w.
  destruct (configured_directories_first h w (lit "/usr/bin:/bin")
              [lit "~/bin"; lit "/opt/bin"] false (lit "tool") eq_refl eq_refl)
    as [w' E].
  - repeat constructor; vm_compute; intros H;
      repeat (apply elem_of_cons in H as [H|H]; [discriminate|]);
      apply elem_of_nil in H; exact H.
  - rewrite E. reflexivity.
Defined.

Lemma probe_filter (h : Host) (name base : str) :
  probe h name base = List.filter (can_exec h) (probed h name base).
Proof.
  unfold probe, probed. destruct (_ && _); [reflexivity|].
  cbn [List.filter]. reflexivity.
Qed.

(** X11: what [find_executables] yields is exactly the executable
    regular files among the paths it tries: for every directory of the
    resolved PATH the candidate, or on Windows for a candidate without
    extension its three variants; it never yields another path. *)
Theorem find_executables_yields (h : Host) (w w' : World)
    (env : gmap str str) (name : str) :
  create_environment h w = (Ok env, w') ->
  exists found,
    find_executables h name w = (Ok found, w') /\
    forall path,
      path ∈ found <->
      exists base,
        base ∈ split (pathsep h) (default [] (env !! PATH)) /\
        path ∈ probed h name base /\ can_exec h path = true.
Proof.
  intros E. eexists. split; [apply (find_executables_run h name w env w' E)|].
  intros path. rewrite list_elem_of_In, in_flat_map. split.
  - intros (base & Hb & Hp). exists base.
    rewrite probe_filter in Hp. apply filter_In in Hp as [Hp Hx].
    rewrite !list_elem_of_In. auto.
  - intros (base & Hb & Hp & Hx). exists base.
    rewrite probe_filter, filter_In, <- !list_elem_of_In. auto.
Qed.

Lemma find_executables_yields_witness :
  let h := Sample.host false [lit "/usr/bin/tool"] ∅ false (Ok 1) (Ok ([], [])) in
  let w := Sample.world {[ PATH := lit "/bin:/usr/bin" ]} in
  exists found,
    find_executables h (lit "tool") w = (Ok found, w) /\
    lit "/usr/bin/tool" ∈ found.
Proof.
  intros h w.
  destruct (find_executables_yields h w w (os_environ w) (lit "tool") eq_refl)
    as (found & E & Hin).
  exists found. split; [exact E|]. apply Hin.
  exists (lit "/usr/bin"). split; [|split; [|reflexivity]].
  - apply list_elem_of_further, list_elem_of_here.
  - apply list_elem_of_here.
Defined.

Lemma filter_none {A} (f : A -> bool) (l : list A) :
  (forall x, x ∈ l -> f x = false) -> List.filter f l = [].
Proof.
  induction l as [|x l IH]; intros H; [reflexivity|].
  cbn [List.filter]. rewrite (H x) by apply list_elem_of_here.
  apply IH. intros y Hy. apply H, list_elem_of_further, Hy.
Qed.

Lemma head_flat_map_first {A B} (f : A -> list B) (before after : list A)
    (d : A) :
  (forall b, b ∈ before -> f b = []) ->
  head (flat_map f (before ++ d :: after))
  = head (f d ++ flat_map f after).
Proof.
  induction before as [|b before IH]; intros H; [reflexivity|].
  cbn [app flat_map]. rewrite (H b) by apply list_elem_of_here.
  apply IH. intros c Hc. apply H, list_elem_of_further, Hc.
Qed.

(** X12: the PATH gives the precedence: where the directories before
    [d] have no executable under any path tried and [d] has one, [which]
    returns the first executable path tried in [d], whatever the
    directories after [d] hold. *)
Theorem which_first_directory (h : Host) (w w' : World) (env : gmap str str)
    (name : str) (before after : list str) (d x : str) (xs : list str) :
  create_environment h w = (Ok env, w') ->
  split (pathsep h) (default [] (env !! PATH)) = before ++ d :: after ->
  (forall b path, b ∈ before -> path ∈ probed h name b ->
                  can_exec h path = false) ->
  List.filter (can_exec h) (probed h name d) = x :: xs ->
  which h name w = (Ok (Some x), w').
Proof.
  intros E Hsplit Hbefore Hd.
  rewrite (which_run h name w env w' E), Hsplit.
  rewrite head_flat_map_first.
  - rewrite probe_filter, Hd. reflexivity.
  - intros b Hb. rewrite probe_filter. apply filter_none.
    intros path Hp. apply (Hbefore b path Hb), Hp.
Qed.

Lemma which_first_directory_witness :
  let h := Sample.host false [lit "/usr/bin/tool"; lit "/bin/tool"] ∅ false
             (Ok 1) (Ok ([], [])) in
  let w := Sample.world {[ PATH := lit "/opt/bin:/usr/bin:/bin" ]} in
  which h (lit "tool") w = (Ok (Some (lit "/usr/bin/tool")), w).
Proof.
  intros h w.
  apply (which_first_directory h w w (os_environ w) (lit "tool")
           [lit "/opt/bin"] [lit "/bin"] (lit "/usr/bin")
           (lit "/usr/bin/tool") []); try reflexivity.
  intros b path Hb Hp. each_member Hb. each_member Hp. reflexivity.
Defined.

(** X13: with no PATH in the resolved environment, or an empty one, the
    search is not empty: [find_executables] tries the one candidate made
    from the empty directory name, and [which] returns it if it is
    executable. *)
Theorem find_executables_without_PATH (h : Host) (w w' : World)
    (env : gmap str str) (name : str) :
  create_environment h w = (Ok env, w') ->
  env !! PATH = None \/ env !! PATH = Some [] ->
  find_executables h name w = (Ok (probe h name []), w') /\
  which h name w = (Ok (head (probe h name [])), w').
Proof.
  intros E Hp.
  assert (Hd : default [] (env !! PATH) = []).
  { unfold str in *. destruct Hp as [-> | ->]; reflexivity. }
  rewrite (which_run h name w env w' E), (find_executables_run h name w env w' E).
  unfold str in *. rewrite Hd. cbn [split flat_map]. rewrite app_nil_r.
  split; reflexivity.
Qed.

Lemma find_executables_without_PATH_witness :
  let h := Sample.host false [lit "tool"] ∅ false (Ok 1) (Ok ([], [])) in
  which h (lit "tool") (Sample.world ∅) = (Ok (Some (lit "tool")), Sample.world ∅).
Proof.
  intros h.
  exact (proj2 (find_executables_without_PATH h (Sample.world ∅)
                  (Sample.world ∅) ∅ (lit "tool") eq_refl
                  (or_introl eq_refl))).
Defined.

(** ** Diagnostic text *)

(** X14: where [os.path.relpath] does not raise, [make_nice_log_message]
    raises in one case only: input on standard input, a file behind the
    view and no working directory; in every other case it returns the
    text. *)
Theorem make_nice_log_message_returns (h : Host) (headline : str)
    (cmd : list str) (is_stdin : bool) (cwd : option str)
    (view : option View) (env : option (gmap str str)) :
  (forall path start, exists r, relpath h path start = Ok r) ->
  let filename := view ≫= file_name in
  (exists msg,
     make_nice_log_message h headline cmd is_stdin cwd view env = Ok msg) <->
  ~ (is_stdin = true /\ truthy_opt filename = true /\ truthy_opt cwd = false).
Proof.
  intros Hrel filename. unfold make_nice_log_message, rel_filename.
  replace (match view with Some v => file_name v | None => None end)
    with filename by (destruct view; reflexivity).
  destruct (truthy_opt filename) eqn:Hf, (truthy_opt cwd) eqn:Hc;
    cbn [andb negb].
  - destruct (Hrel (default [] filename) (default [] cwd)) as [r ->].
    cbn [mbind Res_bind].
    split; [intros _ (_ & _ & H); discriminate|intros _].
    destruct is_stdin; eexists; reflexivity.
  - cbn [mbind Res_bind]. destruct is_stdin.
    + split; [intros [msg H]; discriminate|intros H; destruct H; auto].
    + split; [intros _ (H & _); discriminate|intros _; eexists; reflexivity].
  - cbn [mbind Res_bind].
    split; [intros _ (_ & H & _); discriminate|intros _].
    destruct is_stdin; eexists; reflexivity.
  - cbn [mbind Res_bind].
    split; [intros _ (_ & H & _); discriminate|intros _].
    destruct is_stdin; eexists; reflexivity.
Qed.

Lemma make_nice_log_message_returns_witness :
  let h := Sample.host false [] ∅ false (Ok 1) (Ok ([], [])) in
  exists msg,
    make_nice_log_message h (lit "Running ...") [lit "flake8"; lit "-"] true
      (Some (lit "/tmp")) (Some (file_view (lit "/tmp/a.py") 7)) None
    = Ok msg.
Proof.
  intros h.
  apply (make_nice_log_message_returns h (lit "Running ...")
           [lit "flake8"; lit "-"] true (Some (lit "/tmp"))
           (Some (file_view (lit "/tmp/a.py") 7)) None).
  - intros path start. eexists. reflexivity.
  - intros (_ & _ & H). discriminate.
Defined.

(** ** What a call leaves alone *)

#[global] Instance grows_frame : Frame grows.
Proof.
  split.
  - intros w. split; [reflexivity|]. exists []. rewrite app_nil_r. reflexivity.
  - intros w1 w2 w3 [E1 [evs1 T1]] [E2 [evs2 T2]]. split; [congruence|].
    exists (evs1 ++ evs2). rewrite T2, T1, app_assoc. reflexivity.
  - intros evs w. split; [reflexivity|]. exists evs. reflexivity.
  - intros p w. split; [reflexivity|]. exists []. rewrite app_nil_r.
    reflexivity.
Qed.

#[global] Instance grows_only_frame : Frame grows_only.
Proof.
  split.
  - intros w. split; [apply frame_refl|reflexivity].
  - intros w1 w2 w3 [G1 P1] [G2 P2].
    split; [eapply frame_trans; eassumption|congruence].
  - intros evs w. split; [apply frame_events|reflexivity].
  - intros p w. split; [apply frame_path|reflexivity].
Qed.

Section Keeps.

Context (R : World -> World -> Prop) `{!Frame R}.

#[local] Set Default Proof Using "All".

Lemma keeps_ret {A} (a : A) : keeps R (mret a).
Proof. intros w. apply frame_refl. Qed.

Lemma keeps_lift {A} (r : Res A) : keeps R (lift r).
Proof. intros w. apply frame_refl. Qed.

Lemma keeps_emit (ev : Event) : keeps R (emit ev).
Proof. intros w. apply frame_events. Qed.

Lemma keeps_bind {A B} (m : M A) (f : A -> M B) :
  keeps R m -> (forall a, keeps R (f a)) -> keeps R (m ≫= f).
Proof.
  intros Hm Hf w. unfold mbind, M_bind. specialize (Hm w).
  destruct (m w) as [[a|e] w1]; [|exact Hm].
  eapply frame_trans; [exact Hm|apply Hf].
Qed.

Lemma keeps_fmap {A B} (g : A -> B) (m : M A) :
  keeps R m -> keeps R (g <$> m).
Proof.
  intros Hm w. unfold fmap, M_fmap. specialize (Hm w).
  destruct (m w) as [[a|e] w1]; exact Hm.
Qed.

Lemma keeps_when (b : bool) (m : M unit) : keeps R m -> keeps R (when b m).
Proof. intros Hm. destruct b; [exact Hm|apply keeps_ret]. Qed.

Lemma keeps_try_except {A B} (body : M A) (handler : exn -> M B)
    (orelse : A -> M B) :
  keeps R body -> (forall e, keeps R (handler e)) ->
  (forall a, keeps R (orelse a)) ->
  keeps R (try_except body handler orelse).
Proof.
  intros Hb Hh Ho w. unfold try_except. specialize (Hb w).
  destruct (body w) as [[a|e] w1];
    (eapply frame_trans; [exact Hb|]); [apply Ho|apply Hh].
Qed.

Lemma keeps_finally {A} (body : M A) (cleanup : M unit) :
  keeps R body -> keeps R cleanup -> keeps R (finally body cleanup).
Proof.
  intros Hb Hc w. unfold finally. specialize (Hb w).
  destruct (body w) as [r w1]. specialize (Hc w1).
  destruct (cleanup w1) as [[[]|e] w2];
    (eapply frame_trans; [exact Hb|exact Hc]).
Qed.

Lemma keeps_debug_print_env (h : Host) (p : str) :
  keeps R (debug_print_env h p).
Proof.
  intros w. unfold debug_print_env, mbind, M_bind, get_world.
  destruct (decide (path_logged w = Some p)); [apply frame_refl|].
  cbn. eapply frame_trans; [apply frame_events|apply frame_path].
Qed.

Lemma keeps_create_environment (h : Host) : keeps R (create_environment h).
Proof.
  intros w. rewrite create_environment_steps.
  destruct (_ ≫= _) as [env|e]; [|apply frame_refl].
  revert w. apply keeps_bind; [|intros; apply keeps_ret].
  destruct (info_enabled h); [|apply keeps_ret].
  apply keeps_bind; [apply keeps_lift|].
  intros p. apply keeps_when, keeps_debug_print_env.
Qed.

Lemma keeps_encode_code (code : option str) : keeps R (encode_code code).
Proof.
  destruct code; [apply keeps_fmap, keeps_lift|apply keeps_ret].
Qed.

Lemma keeps_resolve_env (h : Host) (env : option env_arg) :
  keeps R (resolve_env h env).
Proof.
  destruct env; [apply keeps_ret|apply keeps_fmap, keeps_create_environment].
Qed.

Lemma keeps_Popen (h : Host) (args : PopenArgs) : keeps R (Popen h args).
Proof.
  apply keeps_bind; [apply keeps_emit|]. intros _.
  apply keeps_bind; [apply keeps_lift|]. intros pid. apply keeps_ret.
Qed.

Lemma keeps_proc_communicate (h : Host) (proc : Proc)
    (input : option (list Byte.byte)) :
  keeps R (proc_communicate h proc input).
Proof.
  apply keeps_bind; [apply keeps_emit|]. intros _.
  apply keeps_bind; [apply keeps_lift|]. intros [o e]. apply keeps_ret.
Qed.

Lemma keeps_select_output (h : Host) (output_stream : Z)
    (_linter : option Linter)
    (out : option (list Byte.byte) * option (list Byte.byte)) :
  keeps R (select_output h output_stream _linter out).
Proof.
  intros w.
  destruct (select_output_world h output_stream _linter out w)
    as (r & post & E & _).
  rewrite E. apply frame_events.
Qed.

(** The handler of a failed launch. *)
Lemma keeps_failure_handler (h : Host) (cmd : list str) (uses_stdin : bool)
    (cwd : option str) (_linter : option Linter) (env : env_arg) (err : exn) :
  keeps R
    (msg ← lift (make_nice_log_message h
                   (lit "  Execution failed" ++ [LF] ++ [LF] ++ lit "  "
                    ++ exn_str err)
                   cmd uses_stdin cwd (_linter ≫= view) (augmented_env env));
     log_msg ERROR msg ;;
     when (bool_decide (_linter ≠ None)) (emit EvNotifyFailure) ;;
     mret (Some ([] : str))).
Proof.
  apply keeps_bind; [apply keeps_lift|]. intros msg.
  apply keeps_bind; [apply keeps_emit|]. intros _.
  apply keeps_bind; [apply keeps_when, keeps_emit|]. intros _.
  apply keeps_ret.
Qed.

(** The optional log record of a launched run. *)
Lemma keeps_info_record (h : Host) (cmd : list str) (uses_stdin : bool)
    (cwd : option str) (view : option View) :
  keeps R
    (if info_enabled h then
       msg ← lift (make_nice_log_message h (lit "Running ...") cmd
                     uses_stdin cwd view None);
       log_msg INFO msg
     else mret tt).
Proof.
  destruct (info_enabled h); [|apply keeps_ret].
  apply keeps_bind; [apply keeps_lift|]. intros msg. apply keeps_emit.
Qed.

End Keeps.

(** ** The registry over every run *)

(** One run keeps, for every owner, every handle as often as the entry
    held it. *)
Lemma registry_after_run_count (bid : option Z) (p : Proc)
    (reg : gmap (option Z) (list Proc)) (k : option Z) (q : Proc) :
  count_proc q (procs_of (registry_after_run bid p reg) k)
  = count_proc q (procs_of reg k).
Proof.
  unfold registry_after_run, reg_remove, reg_append.
  rewrite procs_of_insert, decide_True by reflexivity.
  destruct (list_remove_app_last p (procs_of reg bid)) as [l' Hl'].
  rewrite Hl'. cbn [fst]. rewrite procs_of_insert.
  destruct (decide (bid = k)) as [->|Hne].
  - pose proof (list_remove_count _ _ _ q Hl') as Hc.
    rewrite count_proc_app in Hc. lia.
  - rewrite procs_of_insert, decide_False by exact Hne. reflexivity.
Qed.

Lemma communicate_encode_raises (h : Host) cmd code output_stream env cwd
    _linter w e w1 :
  encode_code code w = (Raise e, w1) ->
  communicate h cmd code output_stream env cwd _linter w = (Raise e, w1).
Proof. intros H. unfold communicate. apply mbind_raise, H. Qed.

Lemma communicate_resolve_raises (h : Host) cmd code output_stream env cwd
    _linter w code_b w1 e w0 :
  encode_code code w = (Ok code_b, w1) ->
  resolve_env h env w1 = (Raise e, w0) ->
  communicate h cmd code output_stream env cwd _linter w = (Raise e, w0).
Proof.
  intros H1 H2. unfold communicate. rewrite (mbind_ok _ _ _ _ _ H1).
  apply mbind_raise, H2.
Qed.

(** A run whose launch failed stays within any frame. *)
Lemma communicate_not_launched (R : World -> World -> Prop) `{!Frame R}
    (h : Host) cmd code output_stream env cwd _linter w code_b w1 e w0 err :
  encode_code code w = (Ok code_b, w1) ->
  resolve_env h env w1 = (Ok e, w0) ->
  spawn h (popen_args h cmd (bool_decide (code_b ≠ None)) output_stream e cwd)
  = Raise err ->
  R w0 (communicate h cmd code output_stream env cwd _linter w).2.
Proof.
  intros Hcode Henv Hspawn. unfold communicate.
  rewrite (mbind_ok _ _ _ _ _ Hcode), (mbind_ok _ _ _ _ _ Henv).
  unfold try_except, Popen.
  unfold mbind at 1, M_bind at 1. unfold emit at 1. cbn beta iota.
  unfold mbind at 1, M_bind at 1. unfold lift at 1. rewrite Hspawn.
  cbn beta iota.
  match goal with
  | |- R w0 (?handler (add_events ?evs w0)).2 =>
      apply (frame_trans w0 (add_events evs w0)); [apply frame_events|]
  end.
  apply (keeps_failure_handler R).
Qed.

(** X16: however a call of [communicate] ends (encoding error, no
    environment, failed launch, failed wait, or a result), the registry
    holds for every owner the same handles as before, each as often as
    before: no call leaves a handle behind. *)
Theorem communicate_registry_unchanged (h : Host) (cmd : list str)
    (code : option str) (output_stream : Z) (env : option env_arg)
    (cwd : option str) (_linter : option Linter) (w : World)
    (k : option Z) (q : Proc) :
  count_proc q
    (procs_of
       (active_procs
          (communicate h cmd code output_stream env cwd _linter w).2) k)
  = count_proc q (procs_of (active_procs w) k).
Proof.
  destruct (encode_code code w) as [[code_b|e] w1] eqn:Hcode.
  2: { rewrite (communicate_encode_raises _ _ _ _ _ _ _ _ _ _ Hcode).
       rewrite (encode_code_same_world _ _ _ _ Hcode). reflexivity. }
  pose proof (encode_code_same_world _ _ _ _ Hcode) as ->.
  destruct (resolve_env h env w) as [[e|ex] w0] eqn:Henv.
  2: { rewrite (communicate_resolve_raises _ _ _ _ _ _ _ _ _ _ _ _ Hcode Henv).
       pose proof (keeps_resolve_env grows_only h env w) as [_ Hr].
       rewrite Henv in Hr. cbn [snd] in *. rewrite Hr. reflexivity. }
  assert (Hreg : active_procs w0 = active_procs w)
    by exact (resolve_env_active_procs h env w e w0 Henv).
  rewrite <- Hreg.
  set (uses_stdin := bool_decide (code_b ≠ None)).
  set (args := popen_args h cmd uses_stdin output_stream e cwd).
  destruct (spawn h args) as [pid|err] eqn:Hspawn.
  2: { pose proof (communicate_not_launched grows_only h cmd code
                     output_stream env cwd _linter w code_b w e w0 err
                     Hcode Henv Hspawn) as [_ Hr].
       rewrite Hr. reflexivity. }
  destruct (info_enabled h) eqn:Hen;
    [destruct (make_nice_log_message h (lit "Running ...") cmd uses_stdin
                 cwd (_linter ≫= view) None) as [msg|ex] eqn:Hmsg|].
  - assert (Hinfo : info_log h cmd uses_stdin cwd (_linter ≫= view)
                      [EvLog INFO msg])
      by (unfold info_log; rewrite Hen; exists msg; split;
          [exact Hmsg|reflexivity]).
    rewrite (communicate_launched h cmd code output_stream env cwd _linter
               w code_b w e w0 pid _ Hcode Henv Hspawn Hinfo).
    fold uses_stdin args.
    destruct (child_io h (proc_of args pid) code_b) as [[o err]|ex].
    + match goal with
      | |- context [select_output h output_stream _linter ?out ?w2] =>
          destruct (select_output_world h output_stream _linter out w2)
            as (r & post & -> & _)
      end.
      cbn [snd active_procs add_events with_active_procs].
      apply registry_after_run_count.
    + cbn [snd active_procs add_events with_active_procs].
      apply registry_after_run_count.
  - rewrite (communicate_launched_log_raises h cmd code output_stream env cwd
               _linter w code_b w e w0 pid ex Hcode Henv Hspawn Hen Hmsg).
    reflexivity.
  - assert (Hinfo : info_log h cmd uses_stdin cwd (_linter ≫= view) [])
      by (unfold info_log; rewrite Hen; reflexivity).
    rewrite (communicate_launched h cmd code output_stream env cwd _linter
               w code_b w e w0 pid _ Hcode Henv Hspawn Hinfo).
    fold uses_stdin args.
    destruct (child_io h (proc_of args pid) code_b) as [[o err]|ex].
    + match goal with
      | |- context [select_output h output_stream _linter ?out ?w2] =>
          destruct (select_output_world h output_stream _linter out w2)
            as (r & post & -> & _)
      end.
      cbn [snd active_procs add_events with_active_procs].
      apply registry_after_run_count.
    + cbn [snd active_procs add_events with_active_procs].
      apply registry_after_run_count.
Qed.

(** ** The events of every run *)







(** ** Runs *)

Lemma make_nice_log_message_no_cwd (h : Host) (headline : str)
    (cmd : list str) (is_stdin : bool) (view : option View)
    (env : option (gmap str str)) :
  is_stdin = false \/ truthy_opt (view ≫= file_name) = false ->
  exists msg,
    make_nice_log_message h headline cmd is_stdin None view env = Ok msg.
Proof.
  intros Hcase. unfold make_nice_log_message, rel_filename.
  replace (match view with Some v => file_name v | None => None end)
    with (view ≫= file_name) by (destruct view; reflexivity).
  cbn [truthy_opt]. rewrite andb_false_r.
  destruct (truthy_opt (view ≫= file_name)) eqn:Hf; cbn [negb mbind Res_bind].
  - destruct Hcase as [-> | H]; [eexists; reflexivity|discriminate].
  - destruct is_stdin; eexists; reflexivity.
Qed.

(** X17: a failed launch is recovered whenever no working directory is
    given and either nothing goes to standard input or no file is behind
    the owner's view: one error record is logged, the owner (if any) is
    notified once, nothing else happens and the result is the empty
    string. *)
Theorem communicate_failed_launch_recovered (h : Host) (cmd : list str)
    (code : option str) (output_stream : Z) (env : option env_arg)
    (_linter : option Linter) (w w1 w0 : World)
    (code_b : option (list Byte.byte)) (e : env_arg) (err : exn) :
  encode_code code w = (Ok code_b, w1) ->
  resolve_env h env w1 = (Ok e, w0) ->
  let args := popen_args h cmd (bool_decide (code_b ≠ None)) output_stream e
                None in
  spawn h args = Raise err ->
  code = None \/ truthy_opt ((_linter ≫= view) ≫= file_name) = false ->
  exists msg,
    communicate h cmd code output_stream env None _linter w
    = (Ok (Some []),
       add_events ([EvPopen args; EvLog ERROR msg]
                   ++ if bool_decide (_linter ≠ None) then [EvNotifyFailure]
                      else []) w0).
Proof.
  intros Hcode Henv args Hspawn Hcase.
  assert (Hstdin : bool_decide (code_b ≠ None) = false \/
                   truthy_opt ((_linter ≫= view) ≫= file_name) = false).
  { destruct Hcase as [-> | H]; [left|right; exact H].
    cbn [encode_code] in Hcode. injection Hcode as <- _.
    apply bool_decide_eq_false_2. intros H. apply H. reflexivity. }
  destruct (make_nice_log_message_no_cwd h
              (lit "  Execution failed" ++ [LF] ++ [LF] ++ lit "  "
               ++ exn_str err)
              cmd (bool_decide (code_b ≠ None)) (_linter ≫= view)
              (augmented_env e) Hstdin) as [msg Hmsg].
  exists msg.
  apply (communicate_launch_failure h cmd code output_stream env None _linter
           w code_b w1 e w0 err msg Hcode Henv Hspawn Hmsg).
Qed.

Lemma communicate_failed_launch_recovered_witness :
  let h := Sample.host false [] ∅ false
             (Raise (OSError (lit "No such file or directory")))
             (Ok ([], [])) in
  let r := communicate h [lit "nonexistent"; lit "/tmp/a.py"] None
             STREAM_BOTH (Some (EnvDict ∅)) None
             (Some (linter_of (file_view (lit "/tmp/a.py") 7)))
             (Sample.world ∅) in
  r.1 = Ok (Some []) /\
  length (error_logs (trace r.2)) = 1%nat /\
  failure_notifications (trace r.2) = 1%nat.
Proof.
  intros h r.
  destruct (communicate_failed_launch_recovered h
              [lit "nonexistent"; lit "/tmp/a.py"] None STREAM_BOTH
              (Some (EnvDict ∅)) (Some (linter_of (file_view (lit "/tmp/a.py") 7)))
              (Sample.world ∅) (Sample.world ∅) (Sample.world ∅) None
              (EnvDict ∅) (OSError (lit "No such file or directory"))
              eq_refl eq_refl eq_refl (or_introl eq_refl)) as [msg E].
  unfold r. rewrite E. repeat split.
Defined.

(** X18: a child that writes back on stdout what it reads on stdin gives
    the code back: in a run with the selector stdout-only whose launch
    succeeds and whose log record, where the logger is at INFO, can be
    formatted, the result is the code with its SGR sequences stripped,
    and the code itself where it has no escape character. *)
Theorem communicate_echo (h : Host) (cmd : list str) (code : str)
    (env : option env_arg) (cwd : option str) (_linter : option Linter)
    (w w0 : World) (sent : list Byte.byte) (e : env_arg) (pid : N)
    (err : list Byte.byte) :
  utf8_encode code = Ok sent ->
  resolve_env h env w = (Ok e, w0) ->
  let args := popen_args h cmd true STREAM_STDOUT e cwd in
  spawn h args = Ok pid ->
  (info_enabled h = true ->
   exists msg,
     make_nice_log_message h (lit "Running ...") cmd true cwd
       (_linter ≫= view) None = Ok msg) ->
  child_io h (proc_of args pid) (Some sent) = Ok (sent, err) ->
  let result :=
    (communicate h cmd (Some code) STREAM_STDOUT env cwd _linter w).1 in
  result = Ok (Some (strip_ansi code)) /\
  (no_esc code = true -> result = Ok (Some code)).
Proof.
  intros Henc Henv args Hspawn Hlog Hio result.
  assert (Hcode : encode_code (Some code) w = (Ok (Some sent), w)).
  { cbn [encode_code]. unfold fmap, M_fmap, lift. rewrite Henc. reflexivity. }
  assert (Hinfo : exists info,
            info_log h cmd true cwd (_linter ≫= view) info).
  { unfold info_log. destruct (info_enabled h); [|eexists; reflexivity].
    destruct (Hlog eq_refl) as [msg Hmsg].
    exists [EvLog INFO msg], msg. split; [exact Hmsg|reflexivity]. }
  destruct Hinfo as [info Hinfo].
  assert (Hrun := communicate_launched h cmd (Some code) STREAM_STDOUT env cwd
                    _linter w (Some sent) w e w0 pid info Hcode Henv).
  cbv zeta in Hrun.
  replace (bool_decide (Some sent ≠ None)) with true in Hrun
    by (symmetry; apply bool_decide_eq_true_2; discriminate).
  fold args in Hrun. specialize (Hrun Hspawn Hinfo). rewrite Hio in Hrun.
  assert (Hres : result = Ok (Some (strip_ansi code))).
  { unfold result. rewrite Hrun. unfold select_output, streams_of.
    change (Z.eqb STREAM_STDOUT STREAM_STDOUT) with true. cbn iota.
    subst args. cbn [stdout_pipe proc_of popen_args pa_stdout].
    change (negb (Z.eqb (Z.land STREAM_STDOUT STREAM_STDOUT) 0)) with true.
    cbn iota. unfold fmap, M_fmap, lift. cbn [fst].
    rewrite post_process_ok. cbn [fst]. unfold post_processed.
    pose proof (decode_of_utf8 h sent code (utf8_decode_encode _ _ Henc)) as Hd.
    pose proof (decode_ok h (Some sent)) as Hd'. rewrite Hd in Hd'.
    injection Hd' as Hd'. do 3 f_equal. symmetry. exact Hd'. }
  split; [exact Hres|]. intros Hno. rewrite Hres.
  rewrite (strip_ansi_no_esc code Hno). reflexivity.
Qed.

Lemma communicate_echo_witness :
  let sent := [Byte.x68; Byte.xc3; Byte.xa9] in
  let h := Sample.host false [] ∅ true (Ok 1) (Ok (sent, [])) in
  (communicate h [lit "cat"] (Some [104; 233]) STREAM_STDOUT
     (Some (EnvDict ∅)) None None (Sample.world ∅)).1
  = Ok (Some [104; 233]).
Proof.
  intros sent h.
  refine (proj2 (communicate_echo h [lit "cat"] [104; 233] (Some (EnvDict ∅))
                   None None (Sample.world ∅) (Sample.world ∅) sent
                   (EnvDict ∅) 1 [] eq_refl eq_refl eq_refl
                   (fun _ => ex_intro _ _ eq_refl) eq_refl)
            eq_refl).
Defined.

Lemma utf8_encode_surrogate (code : str) :
  Exists (fun c => in_range 55296 57343 c = true) code ->
  (forall c, c ∈ code -> c < 1114112) ->
  utf8_encode code = Raise UnicodeEncodeError.
Proof.
  induction 1 as [c rest Hc|c rest _ IH]; intros Hvalid; cbn [utf8_encode].
  - unfold utf8_encode_char.
    unfold in_range in Hc. apply andb_true_iff in Hc as [H1 H2].
    apply N.leb_le in H1.
    destruct (N.ltb_spec c 128); [lia|].
    destruct (N.ltb_spec c 2048); [lia|].
    unfold in_range. rewrite (proj2 (N.leb_le _ _) H1), H2. reflexivity.
  - destruct (utf8_encode_char c) as [bs|]; [|reflexivity].
    rewrite IH; [reflexivity|].
    intros d Hd. apply Hvalid, list_elem_of_further, Hd.
Qed.

(** X19: code that holds a surrogate code point cannot be encoded: the
    exception of [code.encode('utf8')] reaches the caller, and nothing
    is launched or logged, the world is as it was. *)
Theorem communicate_unencodable (h : Host) (cmd : list str) (code : str)
    (output_stream : Z) (env : option env_arg) (cwd : option str)
    (_linter : option Linter) (w : World) :
  Exists (fun c => in_range 55296 57343 c = true) code ->
  (forall c, c ∈ code -> c < 1114112) ->
  communicate h cmd (Some code) output_stream env cwd _linter w
  = (Raise UnicodeEncodeError, w).
Proof.
  intros Hs Hvalid. apply communicate_encode_raises.
  cbn [encode_code]. unfold fmap, M_fmap, lift.
  rewrite (utf8_encode_surrogate code Hs Hvalid). reflexivity.
Qed.

Lemma communicate_unencodable_witness :
  let h := Sample.host false [] ∅ true (Ok 1) (Ok ([], [])) in
  communicate h [lit "cat"] (Some [97; 56320]) STREAM_STDOUT None None None
    (Sample.world ∅)
  = (Raise UnicodeEncodeError, Sample.world ∅).
Proof.
  intros h. apply communicate_unencodable.
  - apply Exists_cons_tl, Exists_cons_hd. reflexivity.
  - intros c Hc. each_member Hc; reflexivity.
Defined.

(** ** Conversions of settings *)

(** X20: [convert_type(value, [])], the call of [create_environment],
    on a value of the settings file: a list is returned as it is, a
    string or a number is wrapped in a list of one element, and null or
    an object gives [None]; no exception is raised and neither
    [re.split] nor [float] has a part in it. *)
Theorem convert_type_of_setting (re_split : str -> str -> option (list str))
    (py_float : str -> option str) (v : setting) :
  convert_type re_split py_float (pyval_of_setting v) (VList []) None VNone
  = Val (match convert_type_list v with
         | Some l => VList (List.map pyval_of_setting l)
         | None => VNone
         end).
Proof. destruct v; reflexivity. Qed.

(** X21: asked for a list or a tuple without a separator, [convert_type]
    raises for no value; its result is a list or the default, never a
    tuple unless the value or the default was one; and with a default
    that is [None] or a list, converting the result once more changes
    nothing. *)
Theorem convert_type_to_sequence (re_split : str -> str -> option (list str))
    (py_float : str -> option str) (value type_value default : pyval) :
  is_sequence type_value = true ->
  exists r,
    convert_type re_split py_float value type_value None default = Val r /\
    (is_list r = true \/ r = value \/ r = default) /\
    (default = VNone \/ is_list default = true ->
     convert_type re_split py_float r type_value None default = Val r).
Proof.
  intros Ht.
  destruct type_value as [| | |t|t|]; try discriminate;
    destruct value as [|n|s|l|l|d];
    (eexists; split; [reflexivity|]; split;
     [first [left; reflexivity | right; left; reflexivity
            | right; right; reflexivity]|]);
    try (intros _; reflexivity);
    intros [-> | Hd]; try reflexivity;
    destruct default; try discriminate; reflexivity.
Qed.

Lemma convert_type_to_sequence_witness :
  let re_split := fun _ _ : str => @None (list str) in
  let py_float := fun _ : str => @None str in
  exists r,
    convert_type re_split py_float (VTuple [VStr (lit "/a")]) (VList []) None
      VNone = Val r /\
    (is_list r = true \/ r = VTuple [VStr (lit "/a")] \/ r = VNone) /\
    (VNone = VNone \/ is_list VNone = true ->
     convert_type re_split py_float r (VList []) None VNone = Val r).
Proof.
  intros re_split py_float.
  apply (convert_type_to_sequence re_split py_float
           (VTuple [VStr (lit "/a")]) (VList []) VNone).
  reflexivity.
Defined.

(** ** Resources of the package *)

Lemma join_cons (sep p : str) (rest : list str) :
  rest <> [] -> join sep (p :: rest) = p ++ sep ++ join sep rest.
Proof. destruct rest; [congruence|reflexivity]. Qed.

(** X22: [from_sl_dir] only puts the text [Packages/SublimeLinter/] in
    front of the joined segments: with at least one segment, the call
    loads what the call without the flag loads for the segments
    [Packages], [SublimeLinter] and then the given ones. *)
Theorem load_json_from_sl_dir (load_resource : str -> Py str)
    (decode_value : str -> Py setting) (segments : list str) :
  segments <> [] ->
  load_json load_resource decode_value segments true
  = load_json load_resource decode_value
      (lit "Packages" :: lit "SublimeLinter" :: segments) false.
Proof.
  intros Hs. unfold load_json.
  rewrite (join_cons _ (lit "Packages")) by discriminate.
  rewrite (join_cons _ (lit "SublimeLinter")) by exact Hs.
  cbn [app].
  replace (lit "Packages/SublimeLinter/" ++ join (lit "/") segments)
    with (lit "Packages" ++ lit "/" ++ lit "SublimeLinter" ++ lit "/"
          ++ join (lit "/") segments); [reflexivity|].
  rewrite !app_assoc. reflexivity.
Qed.

Lemma load_json_from_sl_dir_witness :
  let load_resource := fun path : str =>
    if decide (path = lit "Packages/SublimeLinter/package-metadata.json")
    then Val (lit "{}") else Exc (lit "OSError") in
  let decode_value := fun _ : str => Val (SDict []) in
  load_json load_resource decode_value [lit "package-metadata.json"] true
  = Val (SDict []) /\
  load_json load_resource decode_value
    [lit "Packages"; lit "SublimeLinter"; lit "package-metadata.json"] false
  = Val (SDict []).
Proof.
  intros load_resource decode_value.
  rewrite <- (load_json_from_sl_dir load_resource decode_value
                [lit "package-metadata.json"]) by discriminate.
  split; reflexivity.
Defined.

Lemma dict_get_None (d : list (str * setting)) (key : str) :
  key ∉ keys d -> dict_get d key = None.
Proof.
  induction d as [|[k v] rest IH]; intros Hk; [reflexivity|].
  cbn [dict_get]. rewrite IH.
  - destruct (decide (k = key)) as [->|]; [|reflexivity].
    exfalso. apply Hk. left.
  - intros H. apply Hk. right. exact H.
Qed.

Lemma dict_get_Some (d : list (str * setting)) (key : str) :
  key ∈ keys d -> exists v, dict_get d key = Some v /\ (key, v) ∈ d.
Proof.
  induction d as [|[k v] rest IH]; intros Hk.
  - apply elem_of_nil in Hk as [].
  - cbn [dict_get].
    destruct (dict_get rest key) as [v'|] eqn:Hr.
    + destruct (decide (key ∈ keys rest)) as [Hin|Hout].
      * destruct (IH Hin) as (v0 & [= <-] & Hv0).
        exists v'. split; [reflexivity|right; exact Hv0].
      * rewrite (dict_get_None rest key Hout) in Hr. discriminate.
    + destruct (decide (k = key)) as [->|Hne].
      * exists v. split; [reflexivity|left].
      * exfalso. apply elem_of_cons in Hk as [Hk|Hk];
          [cbn in Hk; congruence|].
        destruct (IH Hk) as (v0 & Hv0 & _). discriminate.
Qed.

(** X23: [get_sl_version] tells a failure from a missing key: where the
    metadata of the package load and decode to an object, the result is
    a value bound to [version] in it, or [None] when it has no such
    key; the text [unknown] then comes from the file only. *)
Theorem get_sl_version_of_object (load_resource : str -> Py str)
    (decode_value : str -> Py setting) (text : str)
    (d : list (str * setting)) :
  load_resource (lit "Packages/SublimeLinter/package-metadata.json")
  = Val text ->
  decode_value text = Val (SDict d) ->
  let version := get_sl_version load_resource decode_value in
  (lit "version" ∉ keys d -> version = SNull) /\
  (lit "version" ∈ keys d -> (lit "version", version) ∈ d).
Proof.
  intros Hload Hdecode version.
  assert (Hv : version = default SNull (dict_get d (lit "version"))).
  { unfold version, get_sl_version, load_json.
    change ((lit "Packages/SublimeLinter/" ++
             join (lit "/") [lit "package-metadata.json"]))
      with (lit "Packages/SublimeLinter/package-metadata.json").
    rewrite Hload, Hdecode. reflexivity. }
  split; intros Hk.
  - rewrite Hv, (dict_get_None d _ Hk). reflexivity.
  - destruct (dict_get_Some d _ Hk) as (v & Hg & Hin).
    rewrite Hv, Hg. exact Hin.
Qed.

Lemma get_sl_version_of_object_witness :
  let load_resource := fun _ : str => Val (lit "{}") in
  let d := [(lit "name", SStr (lit "SublimeLinter"));
            (lit "version", SStr (lit "4.0.0"))] in
  let decode_value := fun _ : str => Val (SDict d) in
  (lit "version", get_sl_version load_resource decode_value) ∈ d.
Proof.
  intros load_resource d decode_value.
  refine (proj2 (get_sl_version_of_object load_resource decode_value
                   (lit "{}") d eq_refl eq_refl) _).
  right. left.
Defined.
